(** * Debugtron main-process utilities ([src/main/utils.ts])

    A shallow embedding of the icon extractor ([readIcnsAsImageUri]), the
    platform metadata reader ([getAppInfo]), app discovery
    ([getElectronApps]) and the debug instance manager ([startDebugging]),
    with the properties the specification states about them.

    Conventions of the embedding:
    - a JavaScript string is the list of its UTF-16 code units ([jsstring]);
    - a Node [Buffer] is a [list byte];
    - a JavaScript number that holds an integer is a [Z];
    - a call that may throw, reject or loop for ever returns an [outcome];
    - the file system, [process.platform], [os.homedir()], [process.cwd()],
      the [uuid] generator and the [plist] parser are inputs of the
      functions that use them. *)

From Stdlib Require Import ZArith Lia List String Ascii.
From Stdlib Require Import Strings.Byte.
From stdpp Require Import base option list gmap.

Local Open Scope Z_scope.

(** ** JavaScript strings *)

Module JS.

Abbreviation jsstring := (list Z).

(** A literal of the source: the code units of an ASCII text. *)
Fixpoint js (s : string) : list Z :=
  match s with
  | EmptyString => []
  | String a s' => Z.of_N (N_of_ascii a) :: js s'
  end.

(** The empty string ['']. *)
Definition emptyString : list Z := [].

Fixpoint jseqb (s t : list Z) : bool :=
  match s, t with
  | [], [] => true
  | c :: s', d :: t' => (c =? d) && jseqb s' t'
  | _, _ => false
  end.

(** [s.startsWith(p)]. *)
Fixpoint startsWith (s p : list Z) : bool :=
  match p, s with
  | [], _ => true
  | d :: p', c :: s' => (c =? d) && startsWith s' p'
  | _ :: _, [] => false
  end.

(** [s.endsWith(p)]: the last [p.length] code units of [s] are [p]. *)
Definition endsWith (s p : list Z) : bool :=
  (length p <=? length s)%nat && jseqb (drop (length s - length p)%nat s) p.

(** [s.includes(p)]: [p] occurs at some position of [s]. *)
Fixpoint includes (s p : list Z) : bool :=
  startsWith s p ||
  match s with
  | [] => false
  | _ :: s' => includes s' p
  end.

(** [String.prototype.toLowerCase] on one code unit.  The Latin capitals
    map to their small letters.  Outside ASCII the two characters whose
    lower case contains an ASCII letter are kept as the Unicode tables
    have them: U+0130 becomes "i" followed by U+0307 and U+212A becomes
    "k".  Every other code unit is left as it is: its lower case holds no
    ASCII letter, so it cannot take part in a match of an ASCII keyword. *)
Definition lowerUnit (c : Z) : list Z :=
  if (65 <=? c) && (c <=? 90) then [c + 32]
  else if c =? 304 then [105; 775]
  else if c =? 8490 then [107]
  else [c].

Definition toLowerCase (s : list Z) : list Z := concat (map lowerUnit s).

End JS.
Export JS.

(** ** Results of calls *)

(** The exceptions that the code of this file can raise. *)
Inductive exn :=
  | TypeError                    (* a property read on [undefined] *)
  | RangeError                   (* ERR_OUT_OF_RANGE of a Buffer read *)
  | SystemError                  (* a rejected file-system call *)
  | SyntaxError                  (* thrown by the plist parser *)
  | Error (message : jsstring).  (* [new Error(message)] *)

(** The [name] property of the exception object. *)
Definition exn_name (e : exn) : string :=
  match e with
  | TypeError => "TypeError"
  | RangeError => "RangeError"
  | SystemError => "Error"
  | SyntaxError => "SyntaxError"
  | Error _ => "Error"
  end.

(** What a call does: it returns a value, throws (an [async] function
    rejects), or never finishes. *)
Inductive outcome (A : Type) :=
  | Returns (a : A)
  | Throws (e : exn)
  | Diverges.
Arguments Returns {A} a.
Arguments Throws {A} e.
Arguments Diverges {A}.

Definition outcome_bind {A B} (f : A → outcome B) (m : outcome A) : outcome B :=
  match m with
  | Returns a => f a
  | Throws e => Throws e
  | Diverges => Diverges
  end.

#[export] Instance outcome_mbind : MBind outcome := @outcome_bind.
#[export] Instance outcome_mret : MRet outcome := @Returns.

(** ** Buffers *)

Module Buffer.

Definition byte_val (b : byte) : Z := Z.of_N (Byte.to_N b).

Definition byte_of_Z (z : Z) : byte :=
  match Byte.of_N (Z.to_N z) with
  | Some b => b
  | None => x00
  end.

(** [buf[i]], [None] for [undefined]. *)
Definition at_ (buf : list byte) (i : Z) : option Z :=
  if i <? 0 then None else byte_val <$> buf !! Z.to_nat i.

(** [buf.readInt32BE(offset)] for an integral offset: Node reads
    [first = buf[offset]] and [last = buf[offset + 3]], raises
    ERR_OUT_OF_RANGE when either is [undefined], and returns
    [(first << 24) + b1 * 2 ** 16 + b2 * 2 ** 8 + last], where the shift
    is a signed 32-bit one. *)
Definition readInt32BE (buf : list byte) (offset : Z) : outcome Z :=
  match at_ buf offset, at_ buf (offset + 1),
        at_ buf (offset + 2), at_ buf (offset + 3) with
  | Some first, Some b1, Some b2, Some last =>
      let hi := if first <? 128 then first else first - 256 in
      Returns (hi * 2 ^ 24 + b1 * 2 ^ 16 + b2 * 2 ^ 8 + last)
  | _, _, _, _ => Throws RangeError
  end.

(** Node's [adjustOffset] for an integral offset. *)
Definition adjustOffset (offset length : Z) : Z :=
  if offset =? 0 then 0
  else if offset <? 0 then
    let o := offset + length in if 0 <? o then o else 0
  else if offset <? length then offset
  else length.

(** [buf.slice(start, end)]; [end_ = None] is an omitted argument. *)
Definition slice (buf : list byte) (start : Z) (end_ : option Z) : list byte :=
  let srcLength := Z.of_nat (length buf) in
  let start := adjustOffset start srcLength in
  let end_ := match end_ with
              | Some e => adjustOffset e srcLength
              | None => srcLength
              end in
  let newLength := if start <? end_ then end_ - start else 0 in
  take (Z.to_nat newLength) (drop (Z.to_nat start) buf).

(** *** [buf.toString()]: UTF-8 decoding

    The decoder of the Encoding standard, as V8 implements it: an
    ill-formed sequence gives U+FFFD and the byte that ended it is read
    again; a code point above U+FFFF is written as a surrogate pair. *)
Record utf8_state := {
  u_needed : Z;   (* continuation bytes still expected *)
  u_cp : Z;       (* code point collected so far *)
  u_lower : Z;    (* bounds of the next continuation byte *)
  u_upper : Z
}.

Definition utf8_init : utf8_state :=
  {| u_needed := 0; u_cp := 0; u_lower := 128; u_upper := 191 |}.

Definition emit (cp : Z) : list Z :=
  if cp <? 65536 then [cp]
  else [55296 + (cp - 65536) / 1024; 56320 + (cp - 65536) mod 1024].

(** A byte read when no sequence is open. *)
Definition utf8_lead (b : Z) : list Z * utf8_state :=
  if b <? 128 then ([b], utf8_init)
  else if (194 <=? b) && (b <=? 223) then
    ([], {| u_needed := 1; u_cp := b mod 32; u_lower := 128; u_upper := 191 |})
  else if (224 <=? b) && (b <=? 239) then
    ([], {| u_needed := 2; u_cp := b mod 16;
            u_lower := if b =? 224 then 160 else 128;
            u_upper := if b =? 237 then 159 else 191 |})
  else if (240 <=? b) && (b <=? 244) then
    ([], {| u_needed := 3; u_cp := b mod 8;
            u_lower := if b =? 240 then 144 else 128;
            u_upper := if b =? 244 then 143 else 191 |})
  else ([65533], utf8_init).

Definition utf8_step (st : utf8_state) (b : Z) : list Z * utf8_state :=
  if u_needed st =? 0 then utf8_lead b
  else if (b <? u_lower st) || (u_upper st <? b) then
    let '(out, st') := utf8_lead b in (65533 :: out, st')
  else
    let cp := u_cp st * 64 + b mod 64 in
    if u_needed st =? 1 then (emit cp, utf8_init)
    else ([], {| u_needed := u_needed st - 1; u_cp := cp;
                 u_lower := 128; u_upper := 191 |}).

Fixpoint utf8_decode (st : utf8_state) (bs : list byte) : list Z :=
  match bs with
  | [] => if u_needed st =? 0 then [] else [65533]
  | b :: bs' =>
      let '(out, st') := utf8_step st (byte_val b) in
      out ++ utf8_decode st' bs'
  end.

Definition toString (buf : list byte) : jsstring := utf8_decode utf8_init buf.

(** *** [buf.toString('base64')]

    The base64 alphabet of RFC 4648 with "=" padding. *)
Definition b64_char (i : Z) : Z :=
  if i <? 26 then 65 + i
  else if i <? 52 then 97 + (i - 26)
  else if i <? 62 then 48 + (i - 52)
  else if i =? 62 then 43
  else 47.

Definition b64_pad : Z := 61.

Fixpoint toBase64 (buf : list byte) : jsstring :=
  match buf with
  | [] => []
  | [a] =>
      let a := byte_val a in
      [b64_char (a / 4); b64_char (a mod 4 * 16); b64_pad; b64_pad]
  | [a; b] =>
      let a := byte_val a in
      let b := byte_val b in
      [b64_char (a / 4); b64_char (a mod 4 * 16 + b / 16);
       b64_char (b mod 16 * 4); b64_pad]
  | a :: b :: c :: rest =>
      let a := byte_val a in
      let b := byte_val b in
      let c := byte_val c in
      b64_char (a / 4) :: b64_char (a mod 4 * 16 + b / 16)
        :: b64_char (b mod 16 * 4 + c / 64) :: b64_char (c mod 64)
        :: toBase64 rest
  end.

End Buffer.
Export Buffer.

(** The decoder that the round-trip property of the specification speaks
    of: base64 of RFC 4648, four characters at a time, padding accepted
    in the last group only.  It is written from the specification's
    words, to be compared with [toBase64] of the source. *)
Module Base64Spec.

Definition b64_index (c : Z) : option Z :=
  if (65 <=? c) && (c <=? 90) then Some (c - 65)
  else if (97 <=? c) && (c <=? 122) then Some (c - 97 + 26)
  else if (48 <=? c) && (c <=? 57) then Some (c - 48 + 52)
  else if c =? 43 then Some 62
  else if c =? 47 then Some 63
  else None.

Fixpoint base64_decode (s : jsstring) : option (list byte) :=
  match s with
  | [] => Some []
  | c0 :: c1 :: c2 :: c3 :: rest =>
      i0 ← b64_index c0;
      i1 ← b64_index c1;
      let a := byte_of_Z (i0 * 4 + i1 / 16) in
      if (c2 =? b64_pad) && (c3 =? b64_pad) then
        match rest with
        | [] => if i1 mod 16 =? 0 then Some [a] else None
        | _ => None
        end
      else
        i2 ← b64_index c2;
        let b := byte_of_Z (i1 mod 16 * 16 + i2 / 4) in
        if c3 =? b64_pad then
          match rest with
          | [] => if i2 mod 4 =? 0 then Some [a; b] else None
          | _ => None
          end
        else
          i3 ← b64_index c3;
          let c := byte_of_Z (i2 mod 4 * 64 + i3) in
          tl ← base64_decode rest;
          Some (a :: b :: c :: tl)
  | _ => None
  end.

End Base64Spec.
Export Base64Spec.

(** ** The environment of the main process *)

(** The part of the file system the code reads.  [None] stands for a
    call that throws or rejects (ENOENT, ENOTDIR, EPERM, ...). *)
Record FileSystem := {
  fs_readFile : jsstring → option (list byte);
  fs_readdir : jsstring → option (list jsstring);
  fs_existsSync : jsstring → bool
}.

Definition readFile (fs : FileSystem) (file : jsstring) : outcome (list byte) :=
  match fs_readFile fs file with
  | Some buf => Returns buf
  | None => Throws SystemError
  end.

(** ** Icon extractor: [readIcnsAsImageUri] *)

Module Icns.

(** The object [{ type, size, data }] pushed for every entry. *)
Record IconEntry := {
  icon_type : jsstring;
  icon_size : Z;
  icon_data : list byte
}.

(** The [while (start < totalSize)] loop.  The loop may run for ever, so
    it is given fuel: one unit per iteration; the test of the loop
    condition costs nothing. *)
Fixpoint parse_loop (fuel : nat) (buf : list byte) (totalSize start : Z)
    (icons : list IconEntry) : outcome (list IconEntry) :=
  if start <? totalSize then
    match fuel with
    | O => Diverges
    | S fuel' =>
        let type := toString (slice buf start (Some (start + 4))) in
        size ← readInt32BE buf (start + 4);
        let data := slice buf (start + 8) (Some (start + size)) in
        parse_loop fuel' buf totalSize (start + size)
          (icons ++ [{| icon_type := type; icon_size := size; icon_data := data |}])
    end
  else Returns icons.

(** The statements of [readIcnsAsImageUri] up to the end of the loop. *)
Definition parseIcons (fuel : nat) (fs : FileSystem) (file : jsstring)
    : outcome (list IconEntry) :=
  buf ← readFile fs file;
  total ← readInt32BE buf 4;
  let totalSize := total - 8 in
  let buf := slice buf 8 None in
  parse_loop fuel buf totalSize 0 [].

(** [Array.prototype.sort(compare)]: a stable sort (ECMAScript 2019, V8
    7.0); [compare a b > 0] puts [a] after [b].  Written as an insertion
    sort, which moves an element past another only when the comparison is
    strictly positive. *)
Section Sort.
Context {A : Type} (compare : A → A → Z).

Fixpoint sort_insert (x : A) (l : list A) : list A :=
  match l with
  | [] => [x]
  | y :: l' => if 0 <? compare x y then y :: sort_insert x l' else x :: l
  end.

Definition sort (l : list A) : list A := foldr sort_insert [] l.
End Sort.

(** [(a, b) => b.size - a.size]; the sizes are 32-bit integers, so the
    difference of the two doubles is exact. *)
Definition bySizeDesc (a b : IconEntry) : Z := icon_size b - icon_size a.

(** No entry is larger than one before it. *)
Fixpoint descending (l : list IconEntry) : Prop :=
  match l with
  | [] => True
  | x :: l' => Forall (λ y, icon_size y ≤ icon_size x) l' ∧ descending l'
  end.

(** [icons.sort(...)] followed by the read of [icons[0].data]: reading
    [data] of [undefined] throws. *)
Definition selectIcon (icons : list IconEntry) : outcome IconEntry :=
  match sort bySizeDesc icons with
  | [] => Throws TypeError
  | first :: _ => Returns first
  end.

(** The last statements, on [imageData = icons[0].data]. *)
Definition imageUri (imageData : list byte) : jsstring :=
  if jseqb (toString (slice imageData 1 (Some 4))) (js "PNG")
  then js "data:image/png;base64," ++ toBase64 imageData
  else emptyString.

Definition readIcnsAsImageUri (fuel : nat) (fs : FileSystem) (file : jsstring)
    : outcome jsstring :=
  icons ← parseIcons fuel fs file;
  first ← selectIcon icons;
  Returns (imageUri (icon_data first)).

(** The offsets at which the loop tests its condition: [0], and the end
    of every entry it has parsed. *)
Inductive loop_head (buf : list byte) (totalSize : Z) : Z → Prop :=
  | head_first : loop_head buf totalSize 0
  | head_next start size :
      loop_head buf totalSize start →
      start < totalSize →
      readInt32BE buf (start + 4) = Returns size →
      loop_head buf totalSize (start + size).

(** The loop parses an entry at [start] that declares the length [size]. *)
Definition parsed_entry (buf : list byte) (totalSize start size : Z) : Prop :=
  loop_head buf totalSize start ∧ start < totalSize ∧
  readInt32BE buf (start + 4) = Returns size.

(** The buffer and the bound the loop of [readIcnsAsImageUri] runs on. *)
Definition loop_input (fs : FileSystem) (file : jsstring)
    (buf : list byte) (totalSize : Z) : Prop :=
  ∃ whole total,
    fs_readFile fs file = Some whole ∧
    readInt32BE whole 4 = Returns total ∧
    totalSize = total - 8 ∧ buf = slice whole 8 None.

(** [e] is what the loop pushes for an entry it parses: its size is the
    length field read at the entry, its data the bytes the loop slices. *)
Definition entry_of (buf : list byte) (totalSize : Z) (e : IconEntry) : Prop :=
  ∃ start,
    parsed_entry buf totalSize start (icon_size e) ∧
    icon_data e = slice buf (start + 8) (Some (start + icon_size e)).

End Icns.
Export Icns.

(** ** Node's [path] module *)

(** The three functions of [path] the code calls.  Node binds [path] to
    [path.win32] or [path.posix] by the host platform. *)
Record PathModule := {
  path_join : list jsstring → jsstring;
  path_resolve : list jsstring → jsstring;
  path_basename : jsstring → jsstring → jsstring
}.

(** [path.posix]: [join] and [resolve].  Node's [normalizeString] walks
    the characters; here the path is cut at every "/" and the segments
    are handled as that walk handles them: an empty segment and "." are
    dropped, ".." removes the segment before it, or is kept when there is
    none to remove and the path is relative. *)
Module Posix.

Definition slash : Z := 47.
Definition dot : jsstring := [46].
Definition dotdot : jsstring := [46; 46].

Fixpoint split (s : jsstring) : list jsstring :=
  match s with
  | [] => [[]]
  | c :: s' =>
      if c =? slash then [] :: split s'
      else match split s' with
           | seg :: segs => (c :: seg) :: segs
           | [] => [[c]]
           end
  end.

Fixpoint unsplit (segs : list jsstring) : jsstring :=
  match segs with
  | [] => []
  | [seg] => seg
  | seg :: segs' => seg ++ slash :: unsplit segs'
  end.

(** [res] is the result so far, last segment first. *)
Fixpoint normalizeSegments (allowAboveRoot : bool) (segs res : list jsstring)
    : list jsstring :=
  match segs with
  | [] => rev res
  | seg :: segs' =>
      if jseqb seg [] || jseqb seg dot then
        normalizeSegments allowAboveRoot segs' res
      else if jseqb seg dotdot then
        match res with
        | last :: res' =>
            if jseqb last dotdot
            then normalizeSegments allowAboveRoot segs' (dotdot :: res)
            else normalizeSegments allowAboveRoot segs' res'
        | [] =>
            normalizeSegments allowAboveRoot segs'
              (if allowAboveRoot then [dotdot] else [])
        end
      else normalizeSegments allowAboveRoot segs' (seg :: res)
  end.

Definition normalizeString (path : jsstring) (allowAboveRoot : bool) : jsstring :=
  unsplit (normalizeSegments allowAboveRoot (split path) []).

Definition isAbsolute (path : jsstring) : bool :=
  match path with
  | c :: _ => c =? slash
  | [] => false
  end.

Definition trailingSeparator (path : jsstring) : bool :=
  match last path with
  | Some c => c =? slash
  | None => false
  end.

Definition normalize (path : jsstring) : jsstring :=
  match path with
  | [] => dot
  | _ =>
      let p := normalizeString path (negb (isAbsolute path)) in
      match p with
      | [] =>
          if isAbsolute path then [slash]
          else if trailingSeparator path then dot ++ [slash] else dot
      | _ =>
          let p := if trailingSeparator path then p ++ [slash] else p in
          if isAbsolute path then slash :: p else p
      end
  end.

Definition join (args : list jsstring) : jsstring :=
  match filter (λ a, a ≠ []) args with
  | [] => dot
  | nonempty => normalize (unsplit nonempty)
  end.

(** The loop of [resolve], from the last argument to the first and then
    [process.cwd()], until an absolute path has been prepended. *)
Fixpoint resolveLoop (cwd : jsstring) (args : list jsstring)
    (resolvedPath : jsstring) : jsstring * bool :=
  match args with
  | [] =>
      match cwd with
      | [] => (resolvedPath, false)
      | _ => (cwd ++ slash :: resolvedPath, isAbsolute cwd)
      end
  | path :: args' =>
      match path with
      | [] => resolveLoop cwd args' resolvedPath
      | _ =>
          let resolvedPath := path ++ slash :: resolvedPath in
          if isAbsolute path then (resolvedPath, true)
          else resolveLoop cwd args' resolvedPath
      end
  end.

Definition resolve (cwd : jsstring) (args : list jsstring) : jsstring :=
  let '(resolvedPath, resolvedAbsolute) := resolveLoop cwd (rev args) [] in
  let p := normalizeString resolvedPath (negb resolvedAbsolute) in
  if resolvedAbsolute then slash :: p
  else match p with
       | [] => dot
       | _ => p
       end.

(** A path that [normalize] leaves as it is: absolute, cut into
    segments none of which is empty, "." or "..", or holds a "/". *)
Definition clean_segment (seg : jsstring) : Prop :=
  seg ≠ [] ∧ seg ≠ dot ∧ seg ≠ dotdot ∧ slash ∉ seg.

Fixpoint rooted (segs : list jsstring) : jsstring :=
  match segs with
  | [] => []
  | seg :: segs' => slash :: seg ++ rooted segs'
  end.

End Posix.

(** [path] on a POSIX host; [basename] is not used on that host and is
    left to the caller. *)
Definition posix (cwd : jsstring) (basename : jsstring → jsstring → jsstring)
    : PathModule :=
  {| path_join := Posix.join;
     path_resolve := Posix.resolve cwd;
     path_basename := basename |}.

(** ** Platform metadata reader and app discovery *)

(** The descriptor [AppInfo] of [../types]; its fields are read as
    [App.id], [App.name], ... *)
Module App.

Record AppInfo := {
  id : jsstring;
  name : jsstring;
  icon : jsstring;
  appPath : jsstring;
  exePath : jsstring
}.

End App.
Abbreviation AppInfo := App.AppInfo.

Module Discovery.

(** The object [plist.parse] is cast to. *)
Record BundleInfo := {
  CFBundleIdentifier : jsstring;
  CFBundleDisplayName : jsstring;
  CFBundleExecutable : jsstring;
  CFBundleIconFile : jsstring
}.

Section Reader.
(** [process.platform], [path], [fs], [os.homedir()], [plist.parse]
    and the successive results of [v4()]. *)
Variable platform : jsstring.
Variable path : PathModule.
Variable fs : FileSystem.
Variable homedir : jsstring.
Variable plist_parse : jsstring → outcome BundleInfo.
Variable v4 : nat → jsstring.

Definition readdirAbsolute (dir : jsstring) : list jsstring :=
  match fs_readdir fs dir with
  | Some dirs => map (λ file, path_join path [dir; file]) dirs
  | None => []
  end.

Definition getPossibleAppPaths : list jsstring :=
  if jseqb platform (js "win32") then
    concat (map readdirAbsolute
              [homedir ++ js "/AppData/Local";
               js "c:/Program Files";
               js "c:/Program Files (x86)"])
  else if jseqb platform (js "darwin") then
    readdirAbsolute (js "/Applications")
  else [].

(** The test of the [filter] callback: the name ends in ".exe" and its
    lower case includes neither keyword. *)
Definition excluded (file : jsstring) : bool :=
  existsb (λ keyword, includes (toLowerCase file) keyword)
    [js "uninstall"; js "update"].

Definition isExeFile (file : jsstring) : bool :=
  endsWith file (js ".exe") && negb (excluded file).

Definition isElectronBasedWin32 (appPath : jsstring) (files : list jsstring) : bool :=
  fs_existsSync fs (path_join path [appPath; js "resources/electron.asar"])
  || existsb (λ dir, fs_existsSync fs
                       (path_join path [appPath; dir; js "resources/electron.asar"]))
       files.

(** [uuid] is the value the call [v4()] returns. *)
Definition getAppInfoWin32 (uuid appPath : jsstring) : outcome (option AppInfo) :=
  match fs_readdir fs appPath with
  | None => Returns None            (* the [catch] of the [try] *)
  | Some files =>
      if negb (isElectronBasedWin32 appPath files) then Returns None
      else
        match List.filter isExeFile files with
        | [] => Returns None        (* [exeFile] is [undefined] *)
        | [] :: _ => Returns None   (* [!''] *)
        | exeFile :: _ =>
            Returns (Some
              {| App.id := uuid;
                 App.name := path_basename path exeFile (js ".exe");
                 App.icon := emptyString;
                 App.appPath := appPath;
                 App.exePath := path_resolve path [appPath; exeFile] |})
        end
  end.

Definition getAppInfoDarwin (fuel : nat) (appPath : jsstring)
    : outcome (option AppInfo) :=
  let isElectronBased :=
    fs_existsSync fs
      (path_join path
         [appPath; js "Contents/Frameworks/Electron Framework.framework"]) in
  if negb isElectronBased then Returns None
  else
    infoContent ← readFile fs (path_join path [appPath; js "Contents/Info.plist"]);
    info ← plist_parse (toString infoContent);
    icon ← readIcnsAsImageUri fuel fs
              (path_join path
                 [appPath; js "Contents"; js "Resources"; CFBundleIconFile info]);
    Returns (Some
      {| App.id := CFBundleIdentifier info;
         App.name := CFBundleDisplayName info;
         App.icon := icon;
         App.appPath := appPath;
         App.exePath := path_resolve path
                          [appPath; js "Contents/MacOS"; CFBundleExecutable info] |}).

Definition getAppInfo (fuel : nat) (uuid appPath : jsstring)
    : outcome (option AppInfo) :=
  if jseqb platform (js "win32") then getAppInfoWin32 uuid appPath
  else if jseqb platform (js "darwin") then getAppInfoDarwin fuel appPath
  else Throws (Error (js "platform not supported: " ++ platform)).

(** The [for] loop of [getElectronApps]; every descriptor made so far
    has used one result of [v4()] on win32, and none elsewhere. *)
Fixpoint collectInfos (fuel : nat) (appPaths : list jsstring)
    (infos : list AppInfo) : outcome (list AppInfo) :=
  match appPaths with
  | [] => Returns infos
  | p :: appPaths' =>
      info ← getAppInfo fuel (v4 (length infos)) p;
      match info with
      | Some info => collectInfos fuel appPaths' (infos ++ [info])
      | None => collectInfos fuel appPaths' infos
      end
  end.

(** [infos.reduce((a, b) => { a[b.id] = b; return a }, {})]: the object
    returned, as the map of its own properties.  The assignment creates
    or replaces the own property [b.id] for every key but one: for the
    key "__proto__" JavaScript calls the setter of [Object.prototype],
    which makes [b] the prototype of the object and creates no own
    property, so the map is the object only as long as no descriptor has
    that id. *)
Definition byId (infos : list AppInfo) : gmap jsstring AppInfo :=
  foldl (λ a b, <[App.id b := b]> a) ∅ infos.

Definition getElectronApps (fuel : nat) : outcome (gmap jsstring AppInfo) :=
  infos ← collectInfos fuel getPossibleAppPaths [];
  Returns (byId infos).
End Reader.

End Discovery.
Export Discovery.

(** ** Debug instance manager *)

(** The two regular expressions of [handleStdout].  Both have the shape
    [prefix (\d+) \/] where the prefix is made of literal characters and
    of "." (the dots of "127.0.0.1" are not escaped). *)
Module Regex.

Inductive atom :=
  | Lit (c : Z)
  | AnyChar.     (* ".": any code unit but a line terminator *)

Definition lits (s : string) : list atom := map Lit (js s).

Definition lineTerminator (c : Z) : bool :=
  (c =? 10) || (c =? 13) || (c =? 8232) || (c =? 8233).

Definition matchAtom (a : atom) (c : Z) : bool :=
  match a with
  | Lit d => c =? d
  | AnyChar => negb (lineTerminator c)
  end.

(** Matches the prefix at the start of [s]; gives what follows it. *)
Fixpoint matchAtoms (p : list atom) (s : jsstring) : option jsstring :=
  match p, s with
  | [], _ => Some s
  | a :: p', c :: s' => if matchAtom a c then matchAtoms p' s' else None
  | _ :: _, [] => None
  end.

Definition isDigit (c : Z) : bool := (48 <=? c) && (c <=? 57).

(** The longest run of digits at the start of [s], and the rest. *)
Fixpoint digits (s : jsstring) : jsstring * jsstring :=
  match s with
  | c :: s' =>
      if isDigit c then let '(ds, rest) := digits s' in (c :: ds, rest)
      else ([], s)
  | [] => ([], [])
  end.

(** A match that starts at the first code unit of [s].  [\d+] is greedy;
    giving back digits cannot help, since the code unit that would then
    have to be "/" is a digit. *)
Definition matchHere (prefix : list atom) (s : jsstring) : option jsstring :=
  rest ← matchAtoms prefix s;
  match digits rest with
  | ((_ :: _) as ds, c :: _) => if c =? 47 then Some ds else None
  | _ => None
  end.

(** [re.exec(s)]: the leftmost match; the value is the capture
    [match[1]], [None] when [exec] returns [null]. *)
Fixpoint exec (prefix : list atom) (s : jsstring) : option jsstring :=
  match matchHere prefix s with
  | Some m => Some m
  | None =>
      match s with
      | [] => None
      | _ :: s' => exec prefix s'
      end
  end.

Definition ipPrefix (label : string) : list atom :=
  lits label ++ lits " listening on ws://127" ++ [AnyChar] ++ lits "0"
    ++ [AnyChar] ++ lits "0" ++ [AnyChar] ++ lits "1:".

(** [/Debugger listening on ws:\/\/127.0.0.1:(\d+)\//] *)
Definition nodeRe : list atom := ipPrefix "Debugger".
(** [/DevTools listening on ws:\/\/127.0.0.1:(\d+)\//] *)
Definition windowRe : list atom := ipPrefix "DevTools".

End Regex.
Export Regex.

Module Instances.

Record InstanceInfo := {
  appId : jsstring;
  nodePort : option jsstring;     (* [None]: not set *)
  windowPort : option jsstring;
  log : list jsstring
}.

(** The slice of the Redux state the code reads:
    [store.getState().instanceInfo]. *)
Record State := {
  instanceInfo : gmap jsstring InstanceInfo
}.

(** The five action creators imported from [../reducers/instance]. *)
Inductive action :=
  | addInstance (id appId : jsstring)
  | updateNodePort (id port : jsstring)
  | updateWindowPort (id port : jsstring)
  | updateLog (id chunk : jsstring)
  | removeInstance (id : jsstring).

(** Modelled from the spec: the reducer of [../reducers/instance], which
    is not among the sources.  Section 6 of the specification gives the
    five operations: [addInstance] creates an entry with unset ports and
    an empty log, the two port updates set the respective field to the
    value passed (the handler passes the captured digits), [updateLog]
    appends the chunk to the log, [removeInstance] deletes the entry.  An
    update of an entry that does not exist changes nothing. *)
Definition reducer (a : action) (s : State) : State :=
  match a with
  | addInstance id appId =>
      {| instanceInfo :=
           <[id := {| appId := appId; nodePort := None;
                      windowPort := None; log := [] |}]> (instanceInfo s) |}
  | updateNodePort id port =>
      {| instanceInfo :=
           alter (λ i, {| appId := appId i; nodePort := Some port;
                          windowPort := windowPort i; log := log i |})
             id (instanceInfo s) |}
  | updateWindowPort id port =>
      {| instanceInfo :=
           alter (λ i, {| appId := appId i; nodePort := nodePort i;
                          windowPort := Some port; log := log i |})
             id (instanceInfo s) |}
  | updateLog id chunk =>
      {| instanceInfo :=
           alter (λ i, {| appId := appId i; nodePort := nodePort i;
                          windowPort := windowPort i; log := log i ++ [chunk] |})
             id (instanceInfo s) |}
  | removeInstance id =>
      {| instanceInfo := delete id (instanceInfo s) |}
  end.

(** [store.dispatch(action)]. *)
Definition dispatch (a : action) (store : State) : State := reducer a store.

(** [!port]: [undefined] and the empty string are falsy. *)
Definition unset (port : option jsstring) : bool :=
  match port with
  | None => true
  | Some [] => true
  | Some (_ :: _) => false
  end.

(** The listener [handleStdout(isError)] of the instance [id], called
    with one chunk.  Reading [nodePort] of an [instance] that is
    [undefined] throws. *)
Definition handleStdout (id : jsstring) (isError : bool) (chunk : list byte)
    (store : State) : outcome State :=
  let data := toString chunk in
  match instanceInfo store !! id with
  | None => Throws TypeError
  | Some instance =>
      let store :=
        if unset (nodePort instance) then
          match exec nodeRe data with
          | Some port => dispatch (updateNodePort id port) store
          | None => store
          end
        else store in
      let store :=
        if unset (windowPort instance) then
          match exec windowRe data with
          | Some port => dispatch (updateWindowPort id port) store
          | None => store
          end
        else store in
      Returns (dispatch (updateLog id data) store)
  end.

(** What the child process [sp] emits. *)
Inductive child_event :=
  | StdoutData (chunk : list byte)
  | StderrData (chunk : list byte)
  | Close (code : option Z)     (* exit code, [None] after a signal *)
  | SpawnError.                 (* the ['error'] event *)

(** The listeners [startDebugging] registers on [sp]. *)
Definition deliver (id : jsstring) (ev : child_event) (store : State)
    : outcome State :=
  match ev with
  | StdoutData chunk => handleStdout id false chunk store
  | StderrData chunk => handleStdout id true chunk store
  | Close code => Returns (dispatch (removeInstance id) store)
  | SpawnError => Returns store                       (* [// TODO:] *)
  end.

(** The events of a child handled one after the other; a listener that
    throws ends the run. *)
Fixpoint run (id : jsstring) (evs : list child_event) (store : State)
    : outcome State :=
  match evs with
  | [] => Returns store
  | ev :: evs' => store' ← deliver id ev store; run id evs' store'
  end.

(** [startDebugging(app, store)], where [spawn] gives the events the new
    child will emit and [id] is the result of [v4()]: the store once all
    of them have been handled.  [spawn] stands for a call of [spawn()]
    that returns a child; a call that throws at once does so before
    [addInstance] is dispatched and launches no instance.  Which lists a
    child of Node can emit is said by [child_events] below. *)
Definition startDebugging
    (spawn : jsstring → list jsstring → list child_event)
    (id : jsstring) (app : AppInfo) (store : State) : outcome State :=
  let sp := spawn (App.exePath app) [js "--inspect=0"; js "--remote-debugging-port=0"] in
  let store := dispatch (addInstance id (App.id app)) store in
  run id sp store.

(** The chunks of a run, as [StdoutData] or [StderrData] events. *)
Definition is_data (ev : child_event) : Prop :=
  match ev with
  | StdoutData _ | StderrData _ => True
  | _ => False
  end.


Definition port_of (field : InstanceInfo → option jsstring) (id : jsstring)
    (store : State) : option jsstring :=
  i ← instanceInfo store !! id; field i.

(** The value of a port field after a chunk whose text is [data]. *)
Definition next_port (re : list atom) (old : option jsstring) (data : jsstring)
    : option jsstring :=
  if unset old then
    match exec re data with
    | Some port => Some port
    | None => old
    end
  else old.

(** The entry of the instance exists and no port is the empty string. *)
Definition live (id : jsstring) (store : State) : Prop :=
  ∃ i, instanceInfo store !! id = Some i ∧
       nodePort i ≠ Some [] ∧ windowPort i ≠ Some [].

End Instances.
Export Instances.

(** ** Notions used by the further properties *)

(** A sequence is open and the code point it can still produce is not
    an ASCII one. *)
Definition utf8_pending (st : utf8_state) : Prop :=
  128 ≤ u_lower st ∧ u_upper st ≤ 191 ∧
  let t := u_cp st * 64 + u_lower st - 128 in
  (u_needed st = 1 ∧ 128 ≤ t) ∨ (u_needed st = 2 ∧ 2 ≤ t) ∨
  (u_needed st = 3 ∧ 1 ≤ t).

(** The container format the loop reads, written the other way round:
    a 4-byte big-endian number, an entry made of a 4-byte type, the
    length of the whole entry and the payload, and a file made of a
    4-byte magic, the length of the whole file and the entries. *)
Definition be32 (n : Z) : list byte :=
  [byte_of_Z ((n / 2 ^ 24) mod 256); byte_of_Z ((n / 2 ^ 16) mod 256);
   byte_of_Z ((n / 2 ^ 8) mod 256); byte_of_Z (n mod 256)].

Definition entry_bytes (e : list byte * list byte) : list byte :=
  e.1 ++ be32 (8 + Z.of_nat (length e.2)) ++ e.2.

Definition body_bytes (entries : list (list byte * list byte)) : list byte :=
  concat (map entry_bytes entries).

Definition container (magic : list byte) (entries : list (list byte * list byte))
    : list byte :=
  magic ++ be32 (8 + Z.of_nat (length (body_bytes entries))) ++ body_bytes entries.

(** What the loop pushes for an entry of the container. *)
Definition entry_icon (e : list byte * list byte) : IconEntry :=
  {| icon_type := toString e.1;
     icon_size := 8 + Z.of_nat (length e.2);
     icon_data := e.2 |}.

(** One or more iterations take the loop from the offset [start] to the
    offset [stop]. *)
Inductive loop_path (buf : list byte) (totalSize : Z) : Z → Z → Prop :=
  | path_one start size :
      start < totalSize →
      readInt32BE buf (start + 4) = Returns size →
      loop_path buf totalSize start (start + size)
  | path_more start size stop :
      start < totalSize →
      readInt32BE buf (start + 4) = Returns size →
      loop_path buf totalSize (start + size) stop →
      loop_path buf totalSize start stop.

(** The text of a chunk event, as [handleStdout] decodes it. *)
Definition chunk_text (ev : child_event) : option jsstring :=
  match ev with
  | StdoutData chunk | StderrData chunk => Some (toString chunk)
  | _ => None
  end.

Definition chunk_texts (evs : list child_event) : list jsstring :=
  omap chunk_text evs.

(** The capture of the first text that the expression matches. *)
Fixpoint first_capture (re : list atom) (texts : list jsstring) : option jsstring :=
  match texts with
  | [] => None
  | text :: texts' =>
      match exec re text with
      | Some port => Some port
      | None => first_capture re texts'
      end
  end.

(** The descriptors of a list that carry the id [k], in list order. *)
Definition with_id (k : jsstring) (infos : list AppInfo) : list AppInfo :=
  List.filter (λ info, bool_decide (App.id info = k)) infos.

(** [Posix.clean_segment] as a test. *)
Definition clean_segmentb (seg : jsstring) : bool :=
  negb (jseqb seg []) && negb (jseqb seg Posix.dot)
  && negb (jseqb seg Posix.dotdot) && negb (existsb (Z.eqb Posix.slash) seg).

(** ** Sample inputs

    The inputs at which the properties below are evaluated. *)

(** A file system that holds one file. *)
Definition single_file (name : jsstring) (content : list byte) : FileSystem :=
  {| fs_readFile := λ f, if jseqb f name then Some content else None;
     fs_readdir := λ _, None;
     fs_existsSync := λ f, jseqb f name |}.

Definition bytes (l : list Z) : list byte := map byte_of_Z l.

(** The container of the specification's first scenario: 44 bytes, one
    entry of declared length 36 whose 28 payload bytes start with the PNG
    signature. *)
Definition icns44 : list byte :=
  bytes ([105; 99; 110; 115; 0; 0; 0; 44;
          105; 99; 48; 56; 0; 0; 0; 36;
          137; 80; 78; 71; 13; 10; 26; 10]
         ++ [1; 2; 3; 4; 5; 6; 7; 8; 9; 10; 11; 12; 13; 14; 15; 16; 17; 18; 19; 20]).

(** A header with no entry behind it. *)
Definition icns_empty : list byte := bytes [105; 99; 110; 115; 0; 0; 0; 8].

(** Three entries of declared lengths 9, 12 and 12. *)
Definition icns_tie : list byte :=
  bytes [105; 99; 110; 115; 0; 0; 0; 41;
         97; 97; 97; 97; 0; 0; 0; 9; 1;
         98; 98; 98; 98; 0; 0; 0; 12; 2; 80; 78; 71;
         99; 99; 99; 99; 0; 0; 0; 12; 3; 80; 78; 71].

(** An entry that declares the length 0. *)
Definition icns_zero : list byte :=
  bytes [105; 99; 110; 115; 0; 0; 0; 24;
         97; 97; 97; 97; 0; 0; 0; 8;
         98; 98; 98; 98; 0; 0; 0; 0].

Definition icon_file : jsstring := js "/icon.icns".

Definition tie_icons : list IconEntry :=
  [ {| icon_type := js "aaaa"; icon_size := 9; icon_data := bytes [1] |};
    {| icon_type := js "bbbb"; icon_size := 12; icon_data := bytes [2; 80; 78; 71] |};
    {| icon_type := js "cccc"; icon_size := 12; icon_data := bytes [3; 80; 78; 71] |} ].

Definition icns44_entry : IconEntry :=
  {| icon_type := js "ic08"; icon_size := 36;
     icon_data := slice icns44 16 None |}.

(** A [path] for tests: the arguments joined by "/"; [basename] cuts
    the extension off. *)
Definition test_path : PathModule :=
  {| path_join := Posix.unsplit;
     path_resolve := Posix.unsplit;
     path_basename := λ p ext, take (length p - length ext) p |}.

(** A file system with one directory, which holds the marker file. *)
Definition dir_fs (dir : jsstring) (files : list jsstring) : FileSystem :=
  {| fs_readFile := λ _, None;
     fs_readdir := λ d, if jseqb d dir then Some files else None;
     fs_existsSync := λ f, jseqb f (dir ++ js "/resources/electron.asar") |}.

Definition acme_dir : jsstring := js "c:/Program Files/Acme".
Definition acme_files : list jsstring :=
  [js "Update.exe"; js "LICENSE"; js "Acme.exe"; js "Helper.exe"].
Definition upper_files : list jsstring := [js "Acme.EXE"; js "LICENSE"].
Definition no_plist : jsstring → outcome BundleInfo := λ _, Throws SyntaxError.

Definition acme_bundle : jsstring := js "/Applications/Acme.app".

Definition acme_info : BundleInfo :=
  {| CFBundleIdentifier := js "com.acme.app";
     CFBundleDisplayName := js "Acme";
     CFBundleExecutable := js "Acme";
     CFBundleIconFile := js "icon.icns" |}.

(** A parser for tests: every text is the property list of Acme. *)
Definition acme_plist : jsstring → outcome BundleInfo := λ _, Returns acme_info.

(** The bundle of Acme, with or without its icon file. *)
Definition acme_fs (with_icon : bool) : FileSystem :=
  {| fs_readFile := λ f,
       if jseqb f (js "/Applications/Acme.app/Contents/Info.plist")
       then Some (bytes (js "<plist/>"))
       else if with_icon
                 && jseqb f (js "/Applications/Acme.app/Contents/Resources/icon.icns")
       then Some icns44
       else None;
     fs_readdir := λ _, None;
     fs_existsSync := λ f,
       jseqb f (js "/Applications/Acme.app/Contents/Frameworks/Electron Framework.framework") |}.

Definition no_basename : jsstring → jsstring → jsstring := λ p _, p.

Definition acme_app : AppInfo :=
  {| App.id := js "com.acme.app"; App.name := js "Acme"; App.icon := emptyString;
     App.appPath := js "/Applications/Acme.app";
     App.exePath := js "/Applications/Acme.app/Contents/MacOS/Acme" |}.
Definition empty_store : State := {| instanceInfo := ∅ |}.
Definition inspector_chunk : list byte :=
  bytes (js "Debugger listening on ws://127.0.0.1:9229/abc").

Definition devtools_chunk : list byte :=
  bytes (js "DevTools listening on ws://127.0.0.1:40123/devtools/browser/x").
Definition second_inspector_chunk : list byte :=
  bytes (js "Debugger listening on ws://127.0.0.1:1234/def").

(** Further sample inputs. *)

(** A container whose only entry carries no PNG signature. *)
Definition icns_raw : list byte :=
  bytes [105; 99; 110; 115; 0; 0; 0; 20;
         105; 116; 51; 50; 0; 0; 0; 12; 1; 2; 3; 4].
Definition icns_raw_entry : IconEntry :=
  {| icon_type := js "it32"; icon_size := 12; icon_data := bytes [1; 2; 3; 4] |}.
(** A file cut in the middle of the header. *)
Definition icns_short : list byte := bytes [105; 99; 110; 115; 0; 0; 0].

Definition two_entries : list (list byte * list byte) :=
  [(bytes (js "ic07"), bytes [0; 80; 78; 71; 1]);
   (bytes (js "ic08"), bytes [0; 80; 78; 71; 1; 2; 3])].

(** The declared total length promises a second entry that the file
    does not have. *)
Definition icns_truncated : list byte :=
  bytes [105; 99; 110; 115; 0; 0; 0; 24;
         97; 97; 97; 97; 0; 0; 0; 8].
(** The second entry declares the length -8, which leads back to the
    first. *)
Definition icns_cycle : list byte :=
  bytes [105; 99; 110; 115; 0; 0; 0; 24;
         97; 97; 97; 97; 0; 0; 0; 8;
         98; 98; 98; 98; 255; 255; 255; 248].

Definition plain_chunk : list byte := bytes (js "App ready").

Definition two_instances: State :=
  dispatch (addInstance (js "i-2") (js "com.acme.app"))
    (dispatch (addInstance (js "i-1") (js "com.acme.app")) empty_store).

Definition acme_exe_info (uuid : jsstring) (dir exe : string) : AppInfo :=
  {| App.id := uuid;
     App.name := take (length (js exe) - 4) (js exe);
     App.icon := emptyString;
     App.appPath := js dir;
     App.exePath := js dir ++ 47 :: js exe |}.

(** Two application directories under "c:/Program Files", each with the
    marker file and one executable. *)
Definition program_files_fs : FileSystem :=
  {| fs_readFile := λ _, None;
     fs_readdir := λ d,
       if jseqb d (js "c:/Program Files") then Some [js "Acme"; js "Beta"]
       else if jseqb d (js "c:/Program Files/Acme") then Some [js "Acme.exe"]
       else if jseqb d (js "c:/Program Files/Beta") then Some [js "Beta.exe"]
       else None;
     fs_existsSync := λ f,
       jseqb f (js "c:/Program Files/Acme/resources/electron.asar")
       || jseqb f (js "c:/Program Files/Beta/resources/electron.asar") |}.

(** "/Applications" with a bundle that is not an Electron one, the
    bundle of Acme without its property list, and a third bundle. *)
Definition applications_fs : FileSystem :=
  {| fs_readFile := λ _, None;
     fs_readdir := λ d,
       if jseqb d (js "/Applications")
       then Some [js "Notes.app"; js "Acme.app"; js "Other.app"] else None;
     fs_existsSync := λ f,
       jseqb f (js "/Applications/Acme.app/Contents/Frameworks/Electron Framework.framework") |}.

(** The [n]-th result of a [v4()] that does not repeat, for [n] below 10. *)
Definition numbered_uuid (n : nat) : jsstring := js "uuid-" ++ [48 + Z.of_nat n].

(** * Properties *)

(** ** Strings *)

Lemma jseqb_eq (s t : jsstring) : jseqb s t = true ↔ s = t.
Proof.
  revert t. induction s as [|c s IH]; intros [|d t]; simpl; split;
    try congruence; try discriminate.
  - rewrite andb_true_iff, Z.eqb_eq, IH. intros [-> ->]. reflexivity.
  - intros [= -> ->]. rewrite Z.eqb_refl. simpl. apply IH. reflexivity.
Qed.

Lemma jseqb_refl (s : jsstring) : jseqb s s = true.
Proof. apply jseqb_eq. reflexivity. Qed.

Lemma jseqb_neq (s t : jsstring) : s ≠ t → jseqb s t = false.
Proof.
  intros H. destruct (jseqb s t) eqn:E; [|reflexivity].
  apply jseqb_eq in E. contradiction.
Qed.

(** ** Bytes and base64 *)

Lemma byte_val_range (b : byte) : 0 ≤ byte_val b < 256.
Proof.
  unfold byte_val. pose proof (Byte.to_N_bounded b) as H.
  split; [apply N2Z.is_nonneg|]. lia.
Qed.

Lemma byte_of_val (b : byte) : byte_of_Z (byte_val b) = b.
Proof.
  unfold byte_of_Z, byte_val. rewrite N2Z.id, Byte.of_to_N. reflexivity.
Qed.

Ltac zcases :=
  repeat match goal with
         | |- context [?a <? ?b] => destruct (Z.ltb_spec a b)
         | |- context [?a <=? ?b] => destruct (Z.leb_spec a b)
         | |- context [?a =? ?b] => destruct (Z.eqb_spec a b)
         end; cbn [andb orb negb].

Lemma b64_index_char (i : Z) : 0 ≤ i < 64 → b64_index (b64_char i) = Some i.
Proof.
  intros Hi. unfold b64_char, b64_index.
  zcases; try (f_equal; lia); lia.
Qed.

Lemma b64_char_not_pad (i : Z) : 0 ≤ i < 64 → (b64_char i =? b64_pad) = false.
Proof.
  intros Hi. apply Z.eqb_neq. unfold b64_char, b64_pad. zcases; lia.
Qed.

Ltac b64_range :=
  match goal with
  | |- 0 ≤ _ < 64 => Z.div_mod_to_equations; lia
  end.

Ltac b64_simpl :=
  repeat first
    [ rewrite b64_index_char by b64_range
    | rewrite b64_char_not_pad by b64_range
    | rewrite Z.eqb_refl
    | progress simpl ].

Lemma byte_of_Z_eq (z : Z) (b : byte) : z = byte_val b → byte_of_Z z = b.
Proof. intros ->. apply byte_of_val. Qed.

Lemma base64_roundtrip_bounded (n : nat) (buf : list byte) :
  (length buf < n)%nat → base64_decode (toBase64 buf) = Some buf.
Proof.
  revert buf. induction n as [|n IH]; intros buf Hn; [lia|].
  destruct buf as [|a [|b [|c rest]]].
  - reflexivity.
  - pose proof (byte_val_range a).
    cbn [toBase64 base64_decode]. b64_simpl.
    replace (((byte_val a mod 4) * 16) mod 16 =? 0) with true
      by (symmetry; apply Z.eqb_eq; Z.div_mod_to_equations; lia).
    do 2 f_equal. apply byte_of_Z_eq. Z.div_mod_to_equations; lia.
  - pose proof (byte_val_range a). pose proof (byte_val_range b).
    cbn [toBase64 base64_decode]. b64_simpl.
    replace (((byte_val b mod 16) * 4) mod 4 =? 0) with true
      by (symmetry; apply Z.eqb_eq; Z.div_mod_to_equations; lia).
    f_equal. f_equal; [|f_equal]; apply byte_of_Z_eq; Z.div_mod_to_equations; lia.
  - pose proof (byte_val_range a). pose proof (byte_val_range b).
    pose proof (byte_val_range c).
    cbn [toBase64 base64_decode]. b64_simpl.
    rewrite IH by (simpl in Hn; lia). simpl.
    f_equal. f_equal; [|f_equal; [|f_equal]];
      apply byte_of_Z_eq; Z.div_mod_to_equations; lia.
Qed.

Lemma base64_roundtrip (buf : list byte) :
  base64_decode (toBase64 buf) = Some buf.
Proof. apply (base64_roundtrip_bounded (S (length buf))). lia. Qed.

(** ** The sort *)

Section SortFacts.
Context {A : Type} (compare : A → A → Z).

Lemma sort_insert_perm (x : A) (l : list A) :
  sort_insert compare x l ≡ₚ x :: l.
Proof.
  induction l as [|y l IH]; simpl; [reflexivity|].
  destruct (0 <? compare x y); [|reflexivity].
  rewrite IH. apply Permutation_swap.
Qed.

Lemma sort_perm (l : list A) : sort compare l ≡ₚ l.
Proof.
  induction l as [|x l IH]; simpl; [reflexivity|].
  rewrite sort_insert_perm, IH. reflexivity.
Qed.

Lemma sort_cons (x : A) (l : list A) :
  sort compare (x :: l) = sort_insert compare x (sort compare l).
Proof. reflexivity. Qed.
End SortFacts.

(** The sort by size puts the sizes in descending order and keeps the
    entries of one size in the order they had. *)
Lemma sort_insert_same_size (k : Z) (x : IconEntry) (l : list IconEntry) :
  List.filter (λ e, icon_size e =? k) (sort_insert bySizeDesc x l)
  = List.filter (λ e, icon_size e =? k) (x :: l).
Proof.
  induction l as [|y l IH]; [reflexivity|].
  cbn [sort_insert]. unfold bySizeDesc at 1.
  destruct (Z.ltb_spec 0 (icon_size y - icon_size x)) as [Hlt|_]; [|reflexivity].
  cbn [List.filter] in *. rewrite IH.
  destruct (Z.eqb_spec (icon_size x) k), (Z.eqb_spec (icon_size y) k);
    (lia || reflexivity).
Qed.

Lemma sort_stable (k : Z) (icons : list IconEntry) :
  List.filter (λ e, icon_size e =? k) (sort bySizeDesc icons)
  = List.filter (λ e, icon_size e =? k) icons.
Proof.
  induction icons as [|x l IH]; [reflexivity|].
  rewrite sort_cons, sort_insert_same_size. cbn [List.filter].
  rewrite IH. reflexivity.
Qed.

Lemma sort_insert_descending (x : IconEntry) (l : list IconEntry) :
  descending l → descending (sort_insert bySizeDesc x l).
Proof.
  induction l as [|y l IH]; intros Hl; [repeat constructor|].
  destruct Hl as [Hy Hl]. cbn [sort_insert]. unfold bySizeDesc at 1.
  destruct (Z.ltb_spec 0 (icon_size y - icon_size x)) as [Hlt|Hge].
  - split; [|apply IH; assumption].
    rewrite (sort_insert_perm bySizeDesc x l). constructor; [lia|assumption].
  - split; [|split; assumption].
    constructor; [lia|]. eapply Forall_impl; [exact Hy|]. simpl. intros. lia.
Qed.

Lemma sort_descending (icons : list IconEntry) : descending (sort bySizeDesc icons).
Proof.
  induction icons as [|x l IH]; [exact I|].
  rewrite sort_cons. apply sort_insert_descending. assumption.
Qed.

(** The head of the sorted array is the first entry of the largest size. *)
Lemma sort_head_first_largest (icons : list IconEntry) :
  icons ≠ [] →
  ∃ l1 e l2 rest,
    icons = l1 ++ e :: l2 ∧
    sort bySizeDesc icons = e :: rest ∧
    Forall (λ x, icon_size x < icon_size e) l1 ∧
    Forall (λ x, icon_size x ≤ icon_size e) l2.
Proof.
  induction icons as [|x l IH]; [congruence|]. intros _.
  destruct l as [|y l'].
  - exists [], x, [], []. repeat split; constructor.
  - destruct IH as (l1 & e & l2 & rest & Hl & Hs & H1 & H2); [congruence|].
    rewrite sort_cons, Hs. simpl. unfold bySizeDesc at 1.
    destruct (Z.ltb_spec 0 (icon_size e - icon_size x)).
    + exists (x :: l1), e, l2, (sort_insert bySizeDesc x rest).
      rewrite Hl. repeat split; [|assumption].
      constructor; [lia|assumption].
    + exists [], x, (y :: l'), (e :: rest). repeat split; [constructor|].
      rewrite Hl. apply Forall_app. split.
      * eapply Forall_impl; [exact H1|]. simpl. intros. lia.
      * constructor; [lia|]. eapply Forall_impl; [exact H2|]. simpl. intros. lia.
Qed.

(** ** The parsing loop *)

Lemma parse_loop_exit fuel buf totalSize start icons :
  totalSize ≤ start → parse_loop fuel buf totalSize start icons = Returns icons.
Proof.
  intros H. destruct fuel; simpl;
    destruct (Z.ltb_spec start totalSize); (lia || reflexivity).
Qed.

Lemma parse_loop_step fuel buf totalSize start icons :
  start < totalSize →
  parse_loop (S fuel) buf totalSize start icons =
  size ← readInt32BE buf (start + 4);
  parse_loop fuel buf totalSize (start + size)
    (icons ++ [{| icon_type := toString (slice buf start (Some (start + 4)));
                  icon_size := size;
                  icon_data := slice buf (start + 8) (Some (start + size)) |}]).
Proof.
  intros H. simpl. destruct (Z.ltb_spec start totalSize); [reflexivity|lia].
Qed.

Lemma parse_loop_out_of_fuel buf totalSize start icons :
  start < totalSize → parse_loop 0 buf totalSize start icons = Diverges.
Proof.
  intros H. simpl. destruct (Z.ltb_spec start totalSize); [reflexivity|lia].
Qed.

(** With every declared length at least 1 the distance to [totalSize]
    shrinks at each iteration. *)
Lemma parse_loop_terminates buf totalSize :
  (∀ start size, parsed_entry buf totalSize start size → 1 ≤ size) →
  ∀ (n : nat) start icons,
    loop_head buf totalSize start →
    totalSize - start ≤ Z.of_nat n →
    ∃ r, r ≠ Diverges ∧
         ∀ fuel, (n ≤ fuel)%nat → parse_loop fuel buf totalSize start icons = r.
Proof.
  intros Hpos. induction n as [|n IH]; intros start icons Hhead Hn.
  - exists (Returns icons). split; [discriminate|].
    intros fuel _. apply parse_loop_exit. lia.
  - destruct (Z.lt_ge_cases start totalSize) as [Hlt|Hge].
    + destruct (readInt32BE buf (start + 4)) as [size|e|] eqn:Hread.
      * assert (1 ≤ size) by (apply (Hpos start); repeat split; assumption).
        destruct (IH (start + size)
                    (icons ++ [{| icon_type := toString (slice buf start (Some (start + 4)));
                                  icon_size := size;
                                  icon_data := slice buf (start + 8) (Some (start + size)) |}]))
          as (r & Hr & Hrun); [econstructor; eassumption|lia|].
        exists r. split; [assumption|].
        intros [|fuel] Hfuel; [lia|].
        rewrite parse_loop_step, Hread by assumption. simpl.
        apply Hrun. lia.
      * exists (Throws e). split; [discriminate|].
        intros [|fuel] Hfuel; [lia|].
        rewrite parse_loop_step, Hread by assumption. reflexivity.
      * unfold readInt32BE in Hread.
        repeat match type of Hread with
               | match ?x with _ => _ end = _ => destruct x
               end; discriminate.
    + exists (Returns icons). split; [discriminate|].
      intros fuel _. apply parse_loop_exit. lia.
Qed.

(** An entry of declared length 0 is parsed again and again. *)
Lemma parse_loop_stuck buf totalSize start :
  start < totalSize →
  readInt32BE buf (start + 4) = Returns 0 →
  ∀ fuel icons, parse_loop fuel buf totalSize start icons = Diverges.
Proof.
  intros Hlt Hread. induction fuel as [|fuel IH]; intros icons.
  - apply parse_loop_out_of_fuel. assumption.
  - rewrite parse_loop_step, Hread by assumption. simpl.
    rewrite Z.add_0_r. apply IH.
Qed.

Lemma parse_loop_diverges_from buf totalSize start :
  loop_head buf totalSize start →
  (∀ fuel icons, parse_loop fuel buf totalSize start icons = Diverges) →
  ∀ fuel icons, parse_loop fuel buf totalSize 0 icons = Diverges.
Proof.
  induction 1 as [|start size Hhead IH Hlt Hread]; intros Hdiv; [assumption|].
  apply IH. intros [|fuel] icons.
  - apply parse_loop_out_of_fuel. assumption.
  - rewrite parse_loop_step, Hread by assumption. simpl. apply Hdiv.
Qed.

Lemma parseIcons_loop fuel fs file buf totalSize :
  loop_input fs file buf totalSize →
  parseIcons fuel fs file = parse_loop fuel buf totalSize 0 [].
Proof.
  intros (whole & total & Hfile & Htotal & -> & ->).
  unfold parseIcons, readFile. rewrite Hfile. simpl. rewrite Htotal. reflexivity.
Qed.

Lemma readIcns_diverges fuel fs file :
  parseIcons fuel fs file = Diverges → readIcnsAsImageUri fuel fs file = Diverges.
Proof. intros H. unfold readIcnsAsImageUri. rewrite H. reflexivity. Qed.

Lemma parse_loop_entries buf totalSize fuel :
  ∀ start acc icons,
    loop_head buf totalSize start →
    parse_loop fuel buf totalSize start acc = Returns icons →
    ∃ new, icons = acc ++ new ∧ Forall (entry_of buf totalSize) new.
Proof.
  induction fuel as [|fuel IH]; intros start acc icons Hhead Hrun.
  - destruct (Z.lt_ge_cases start totalSize) as [Hlt|Hge].
    + rewrite parse_loop_out_of_fuel in Hrun by assumption. discriminate.
    + rewrite parse_loop_exit in Hrun by assumption. injection Hrun as <-.
      exists []. rewrite app_nil_r. split; [reflexivity|constructor].
  - destruct (Z.lt_ge_cases start totalSize) as [Hlt|Hge].
    + rewrite parse_loop_step in Hrun by assumption.
      destruct (readInt32BE buf (start + 4)) as [size|e|] eqn:Hread;
        simpl in Hrun; try discriminate.
      apply IH in Hrun; [|econstructor; eassumption].
      destruct Hrun as (new & -> & Hnew).
      eexists (_ :: new). rewrite <- app_assoc. split; [reflexivity|].
      constructor; [|assumption].
      exists start. simpl. repeat split; assumption.
    + rewrite parse_loop_exit in Hrun by assumption. injection Hrun as <-.
      exists []. rewrite app_nil_r. split; [reflexivity|constructor].
Qed.

Lemma parseIcons_input fuel fs file icons :
  parseIcons fuel fs file = Returns icons →
  ∃ buf totalSize, loop_input fs file buf totalSize.
Proof.
  unfold parseIcons, readFile. intros H.
  destruct (fs_readFile fs file) as [whole|] eqn:Hfile; [|discriminate].
  simpl in H.
  destruct (readInt32BE whole 4) as [total|e|] eqn:Htotal; try discriminate.
  exists (slice whole 8 None), (total - 8), whole, total. repeat split; assumption.
Qed.

(** ** Slices *)

Lemma adjustOffset_inside (offset len : Z) :
  0 ≤ offset ≤ len → adjustOffset offset len = offset.
Proof. intros H. unfold adjustOffset. zcases; lia. Qed.

Lemma slice_inside (buf : list byte) (start end_ : nat) :
  (start ≤ end_ ≤ length buf)%nat →
  slice buf (Z.of_nat start) (Some (Z.of_nat end_)) =
  take (end_ - start) (drop start buf).
Proof.
  intros H. unfold slice. rewrite !adjustOffset_inside by lia.
  rewrite Nat2Z.id.
  destruct (Z.ltb_spec (Z.of_nat start) (Z.of_nat end_)).
  - f_equal. lia.
  - replace (end_ - start)%nat with 0%nat by lia. reflexivity.
Qed.

Lemma at_Some_byte (buf : list byte) (i : nat) (b : byte) :
  at_ buf (Z.of_nat i) = Some (byte_val b) → buf !! i = Some b.
Proof.
  unfold at_. destruct (Z.ltb_spec (Z.of_nat i) 0); [discriminate|].
  rewrite Nat2Z.id. destruct (buf !! i) as [c|]; [|discriminate].
  simpl. intros [= E]. f_equal.
  rewrite <- (byte_of_val c), E. apply byte_of_val.
Qed.

(** The test [imageData.slice(1, 4).toString() === 'PNG'] holds when the
    bytes at the offsets 1, 2 and 3 are those of "PNG". *)
Lemma png_signature (imageData : list byte) :
  at_ imageData 1 = Some 80 → at_ imageData 2 = Some 78 →
  at_ imageData 3 = Some 71 →
  toString (slice imageData 1 (Some 4)) = js "PNG".
Proof.
  intros H1 H2 H3.
  apply (at_Some_byte imageData 1 x50) in H1.
  apply (at_Some_byte imageData 2 x4e) in H2.
  apply (at_Some_byte imageData 3 x47) in H3.
  destruct imageData as [|b0 [|b1 [|b2 [|b3 rest]]]]; try discriminate.
  injection H1 as ->. injection H2 as ->. injection H3 as ->.
  rewrite (slice_inside _ 1 4) by (simpl; lia). reflexivity.
Qed.

(** ** The claims on the icon extractor *)

(** C1.  When the entry list is not empty, [readIcnsAsImageUri] works on
    the entry of the largest declared length; among several entries of
    that length it takes the first in file order.  The entries before
    the selected one are strictly smaller, those after it are not
    larger, and the length of each entry is the 4-byte big-endian field
    the loop read for it. *)
Theorem selects_first_largest_entry fuel fs file icons :
  parseIcons fuel fs file = Returns icons →
  icons ≠ [] →
  ∃ l1 e l2,
    icons = l1 ++ e :: l2 ∧
    Forall (λ x, icon_size x < icon_size e) l1 ∧
    Forall (λ x, icon_size x ≤ icon_size e) l2 ∧
    selectIcon icons = Returns e ∧
    readIcnsAsImageUri fuel fs file = Returns (imageUri (icon_data e)) ∧
    ∃ buf totalSize,
      loop_input fs file buf totalSize ∧ Forall (entry_of buf totalSize) icons.
Proof.
  intros Hparse Hne.
  destruct (sort_head_first_largest icons Hne)
    as (l1 & e & l2 & rest & Hl & Hs & H1 & H2).
  exists l1, e, l2.
  assert (Hsel : selectIcon icons = Returns e)
    by (unfold selectIcon; rewrite Hs; reflexivity).
  repeat split; try assumption.
  - unfold readIcnsAsImageUri. rewrite Hparse. simpl. rewrite Hsel. reflexivity.
  - destruct (parseIcons_input _ _ _ _ Hparse) as (buf & totalSize & Hin).
    exists buf, totalSize. split; [assumption|].
    rewrite (parseIcons_loop fuel _ _ _ _ Hin) in Hparse.
    apply parse_loop_entries in Hparse; [|constructor].
    destruct Hparse as (new & -> & Hnew). assumption.
Qed.

Lemma selects_first_largest_entry_witness :
  ∃ l1 e l2,
    tie_icons = l1 ++ e :: l2 ∧
    Forall (λ x, icon_size x < icon_size e) l1 ∧
    Forall (λ x, icon_size x ≤ icon_size e) l2 ∧
    selectIcon tie_icons = Returns e ∧
    readIcnsAsImageUri 3 (single_file icon_file icns_tie) icon_file
      = Returns (imageUri (icon_data e)) ∧
    ∃ buf totalSize,
      loop_input (single_file icon_file icns_tie) icon_file buf totalSize ∧
      Forall (entry_of buf totalSize) tie_icons.
Proof.
  apply (selects_first_largest_entry 3 (single_file icon_file icns_tie) icon_file tie_icons).
  - vm_compute. reflexivity.
  - discriminate.
Defined.

(** C2.  When the bytes 1 to 3 of the selected payload are "PNG",
    the result is "data:image/png;base64," followed by the base64 text
    of the payload, and decoding that text gives the payload back. *)
Theorem png_data_uri_roundtrip fuel fs file icons e :
  parseIcons fuel fs file = Returns icons →
  selectIcon icons = Returns e →
  at_ (icon_data e) 1 = Some 80 →
  at_ (icon_data e) 2 = Some 78 →
  at_ (icon_data e) 3 = Some 71 →
  readIcnsAsImageUri fuel fs file
    = Returns (js "data:image/png;base64," ++ toBase64 (icon_data e)) ∧
  base64_decode (toBase64 (icon_data e)) = Some (icon_data e).
Proof.
  intros Hparse Hsel H1 H2 H3. split; [|apply base64_roundtrip].
  unfold readIcnsAsImageUri. rewrite Hparse. simpl. rewrite Hsel. simpl.
  unfold imageUri. rewrite (png_signature _ H1 H2 H3), jseqb_refl. reflexivity.
Qed.

Lemma png_data_uri_roundtrip_witness :
  readIcnsAsImageUri 1 (single_file icon_file icns44) icon_file
    = Returns (js "data:image/png;base64," ++ toBase64 (icon_data icns44_entry)) ∧
  base64_decode (toBase64 (icon_data icns44_entry)) = Some (icon_data icns44_entry).
Proof.
  apply (png_data_uri_roundtrip 1 (single_file icon_file icns44) icon_file
           [icns44_entry] icns44_entry);
    vm_compute; reflexivity.
Defined.

(** The first scenario of the specification, with the text written out. *)
Example scenario_icns44 :
  readIcnsAsImageUri 1 (single_file icon_file icns44) icon_file
  = Returns (js "data:image/png;base64,iVBORw0KGgoBAgMEBQYHCAkKCwwNDg8QERITFA==").
Proof. vm_compute. reflexivity. Qed.

(** C3, as the code has it.  With an empty entry list the extractor
    throws the TypeError of the read of [icons[0].data]; it returns no
    string, for any fuel. *)
Theorem empty_entry_list_throws fuel fs file :
  parseIcons fuel fs file = Returns [] →
  readIcnsAsImageUri fuel fs file = Throws TypeError ∧
  ∀ s, readIcnsAsImageUri fuel fs file ≠ Returns s.
Proof.
  intros Hparse. unfold readIcnsAsImageUri. rewrite Hparse. simpl.
  split; [reflexivity|discriminate].
Qed.

Lemma empty_entry_list_throws_witness :
  readIcnsAsImageUri 0 (single_file icon_file icns_empty) icon_file
    = Throws TypeError ∧
  ∀ s, readIcnsAsImageUri 0 (single_file icon_file icns_empty) icon_file
         ≠ Returns s.
Proof.
  apply (empty_entry_list_throws 0 (single_file icon_file icns_empty) icon_file).
  vm_compute. reflexivity.
Defined.

(** C3, as stated, fails: on a container that holds the header only,
    the entry list is empty and the error thrown is a TypeError, not an
    error named NoIconEntries or NoIconFound. *)
Lemma empty_entry_list_error_is_not_NoIconEntries :
  parseIcons 0 (single_file icon_file icns_empty) icon_file = Returns [] ∧
  ¬ ∃ e, readIcnsAsImageUri 0 (single_file icon_file icns_empty) icon_file
           = Throws e ∧
         (exn_name e = "NoIconEntries"%string ∨ exn_name e = "NoIconFound"%string).
Proof.
  split; [vm_compute; reflexivity|].
  intros (e & He & Hname). vm_compute in He. injection He as <-.
  destruct Hname as [H|H]; discriminate H.
Qed.

(** C9.  On the buffer and the bound of [readIcnsAsImageUri]: when every
    entry the loop parses declares a length of at least 1, the loop ends
    (it returns the entries or throws on a read out of range) with some
    amount of fuel and with every larger one; when the loop parses an
    entry that declares the length 0, it does not end with any fuel, and
    neither does [readIcnsAsImageUri]. *)
Theorem parsing_loop_termination fs file buf totalSize :
  loop_input fs file buf totalSize →
  ((∀ start size, parsed_entry buf totalSize start size → 1 ≤ size) →
   ∃ fuel r, r ≠ Diverges ∧
     ∀ fuel', (fuel ≤ fuel')%nat → parseIcons fuel' fs file = r) ∧
  ((∃ start, parsed_entry buf totalSize start 0) →
   ∀ fuel, parseIcons fuel fs file = Diverges ∧
           readIcnsAsImageUri fuel fs file = Diverges).
Proof.
  intros Hin. split.
  - intros Hpos.
    destruct (parse_loop_terminates buf totalSize Hpos
                (Z.to_nat totalSize) 0 []) as (r & Hr & Hrun);
      [constructor|lia|].
    exists (Z.to_nat totalSize), r. split; [assumption|].
    intros fuel' Hfuel. rewrite (parseIcons_loop _ _ _ _ _ Hin).
    apply Hrun. assumption.
  - intros (start & Hhead & Hlt & Hread) fuel.
    assert (Hdiv : parseIcons fuel fs file = Diverges).
    { rewrite (parseIcons_loop _ _ _ _ _ Hin).
      apply (parse_loop_diverges_from buf totalSize start Hhead).
      apply parse_loop_stuck; assumption. }
    split; [assumption|]. apply readIcns_diverges. assumption.
Qed.

Lemma icns44_loop_heads start :
  loop_head (slice icns44 8 None) 36 start → start = 0 ∨ start = 36.
Proof.
  induction 1 as [|start size Hhead IH Hlt Hread]; [left; reflexivity|].
  destruct IH as [->| ->]; [|lia].
  vm_compute in Hread. injection Hread as <-. right. reflexivity.
Qed.

Lemma parsing_loop_termination_witness :
  (∃ fuel r, r ≠ Diverges ∧
     ∀ fuel', (fuel ≤ fuel')%nat →
       parseIcons fuel' (single_file icon_file icns44) icon_file = r) ∧
  (∀ fuel,
     parseIcons fuel (single_file icon_file icns_zero) icon_file = Diverges ∧
     readIcnsAsImageUri fuel (single_file icon_file icns_zero) icon_file = Diverges).
Proof.
  split.
  - apply (parsing_loop_termination (single_file icon_file icns44) icon_file
             (slice icns44 8 None) 36).
    + exists icns44, 44. repeat split; vm_compute; reflexivity.
    + intros start size (Hhead & Hlt & Hread).
      destruct (icns44_loop_heads start Hhead) as [->| ->]; [|lia].
      vm_compute in Hread. injection Hread as <-. lia.
  - apply (parsing_loop_termination (single_file icon_file icns_zero) icon_file
             (slice icns_zero 8 None) 16).
    + exists icns_zero, 24. repeat split; vm_compute; reflexivity.
    + exists 8. split; [|split; [lia|vm_compute; reflexivity]].
      apply (head_next _ _ 0 8); [constructor|lia|vm_compute; reflexivity].
Defined.

(** ** Platform A *)

Lemma filter_first {A} (p : A → bool) (l1 : list A) (x : A) (l2 : list A) :
  Forall (λ y, p y = false) l1 → p x = true →
  List.filter p (l1 ++ x :: l2) = x :: List.filter p l2.
Proof.
  intros Hl1 Hx. induction Hl1 as [|y l1 Hy _ IH]; simpl.
  - rewrite Hx. reflexivity.
  - rewrite Hy. exact IH.
Qed.

Lemma filter_none {A} (p : A → bool) (l : list A) :
  Forall (λ y, p y = false) l → List.filter p l = [].
Proof.
  induction 1 as [|y l Hy _ IH]; simpl; [reflexivity|].
  rewrite Hy. exact IH.
Qed.

Lemma isExeFile_false (f : jsstring) :
  endsWith f (js ".exe") = false ∨ excluded f = true → isExeFile f = false.
Proof.
  unfold isExeFile. intros [-> | ->]; [reflexivity|]. apply andb_false_r.
Qed.

Lemma getAppInfo_win32 path fs plist_parse fuel uuid appPath :
  getAppInfo (js "win32") path fs plist_parse fuel uuid appPath
  = getAppInfoWin32 path fs uuid appPath.
Proof. reflexivity. Qed.

Lemma win32_no_exe path fs uuid appPath files :
  fs_readdir fs appPath = Some files →
  Forall (λ f, endsWith f (js ".exe") = false ∨ excluded f = true) files →
  getAppInfoWin32 path fs uuid appPath = Returns None.
Proof.
  intros Hdir Hall. unfold getAppInfoWin32. rewrite Hdir.
  destruct (negb (isElectronBasedWin32 path fs appPath files)); [reflexivity|].
  rewrite filter_none; [reflexivity|].
  eapply Forall_impl; [exact Hall|]. intros f. apply isExeFile_false.
Qed.

(** C6.  In a directory that passes the signature check, the executable
    of the descriptor is the first file whose name ends in ".exe" and is
    not excluded, also when excluded files are present; when every file
    is excluded, or none ends in ".exe", there is no descriptor. *)
Theorem win32_selects_first_plain_exe
    path fs plist_parse fuel uuid appPath files :
  fs_readdir fs appPath = Some files →
  isElectronBasedWin32 path fs appPath files = true →
  (∀ l1 exeFile l2,
     files = l1 ++ exeFile :: l2 →
     (∃ f, f ∈ files ∧ excluded f = true) →
     endsWith exeFile (js ".exe") = true →
     excluded exeFile = false →
     Forall (λ f, endsWith f (js ".exe") = false ∨ excluded f = true) l1 →
     getAppInfo (js "win32") path fs plist_parse fuel uuid appPath
     = Returns (Some
         {| App.id := uuid;
            App.name := path_basename path exeFile (js ".exe");
            App.icon := emptyString;
            App.appPath := appPath;
            App.exePath := path_resolve path [appPath; exeFile] |})) ∧
  (Forall (λ f, excluded f = true) files ∨
   Forall (λ f, endsWith f (js ".exe") = false) files →
   getAppInfo (js "win32") path fs plist_parse fuel uuid appPath = Returns None).
Proof.
  intros Hdir Hmark. rewrite getAppInfo_win32. split.
  - intros l1 exeFile l2 -> _ Hexe Hplain Hl1.
    unfold getAppInfoWin32. rewrite Hdir, Hmark. simpl.
    rewrite filter_first.
    + destruct exeFile; [discriminate Hexe|reflexivity].
    + eapply Forall_impl; [exact Hl1|]. intros f. apply isExeFile_false.
    + unfold isExeFile. rewrite Hexe, Hplain. reflexivity.
  - intros Hall. apply (win32_no_exe _ _ _ _ files); [assumption|].
    destruct Hall as [Hall|Hall];
      (eapply Forall_impl; [exact Hall|]); simpl; intros f Hf; tauto.
Qed.

Lemma win32_selects_first_plain_exe_witness :
  getAppInfo (js "win32") test_path (dir_fs acme_dir acme_files) no_plist 0
    (js "uuid-0") acme_dir
  = Returns (Some
      {| App.id := js "uuid-0";
         App.name := js "Acme";
         App.icon := emptyString;
         App.appPath := acme_dir;
         App.exePath := js "c:/Program Files/Acme/Acme.exe" |}).
Proof.
  refine (proj1 (win32_selects_first_plain_exe test_path
                   (dir_fs acme_dir acme_files) no_plist 0 (js "uuid-0")
                   acme_dir acme_files _ _)
            [js "Update.exe"; js "LICENSE"] (js "Acme.exe") [js "Helper.exe"]
            _ _ _ _ _).
  - vm_compute. reflexivity.
  - vm_compute. reflexivity.
  - reflexivity.
  - exists (js "Update.exe"). split; [left|vm_compute; reflexivity].
  - vm_compute. reflexivity.
  - vm_compute. reflexivity.
  - constructor; [right; vm_compute; reflexivity|].
    constructor; [left; vm_compute; reflexivity|constructor].
Defined.

Lemma endsWith_upper_exe (stem : jsstring) :
  endsWith (stem ++ js ".EXE") (js ".exe") = false.
Proof.
  unfold endsWith. rewrite length_app.
  replace (length stem + length (js ".EXE") - length (js ".exe"))%nat
    with (length stem + 0)%nat by (simpl; lia).
  rewrite drop_app_add. simpl. apply andb_false_r.
Qed.

(** C10.  The suffix test is exact in case: a name that ends in ".EXE"
    does not pass it; the exclusion test looks at the lower case of the
    name only.  A directory none of whose files ends in ".exe" gives no
    descriptor. *)
Theorem exe_suffix_is_case_sensitive path fs plist_parse fuel uuid appPath :
  (∀ stem, endsWith (stem ++ js ".EXE") (js ".exe") = false) ∧
  (∀ f g, toLowerCase f = toLowerCase g → excluded f = excluded g) ∧
  excluded (js "UPDATE.exe") = true ∧
  excluded (js "UnInstall.exe") = true ∧
  (∀ files,
     fs_readdir fs appPath = Some files →
     Forall (λ f, endsWith f (js ".exe") = false) files →
     getAppInfo (js "win32") path fs plist_parse fuel uuid appPath = Returns None).
Proof.
  split; [exact endsWith_upper_exe|].
  split; [intros f g H; unfold excluded; simpl; rewrite H; reflexivity|].
  split; [vm_compute; reflexivity|].
  split; [vm_compute; reflexivity|].
  intros files Hdir Hall. rewrite getAppInfo_win32.
  apply (win32_no_exe _ _ _ _ files); [assumption|].
  eapply Forall_impl; [exact Hall|]. simpl. intros; tauto.
Qed.

Lemma exe_suffix_is_case_sensitive_witness :
  getAppInfo (js "win32") test_path (dir_fs acme_dir upper_files) no_plist 0
    (js "uuid-0") acme_dir = Returns None.
Proof.
  refine (proj2 (proj2 (proj2 (proj2
            (exe_suffix_is_case_sensitive test_path (dir_fs acme_dir upper_files)
               no_plist 0 (js "uuid-0") acme_dir)))) upper_files _ _).
  - vm_compute. reflexivity.
  - repeat constructor.
Defined.

(** ** Unsupported platforms *)

(** C7.  On a platform that is neither "win32" nor "darwin",
    [getElectronApps] returns the empty mapping, although [getAppInfo]
    throws on every path. *)
Theorem unsupported_platform_discovers_nothing
    platform path fs homedir plist_parse v4 fuel :
  platform ≠ js "win32" →
  platform ≠ js "darwin" →
  getElectronApps platform path fs homedir plist_parse v4 fuel = Returns ∅ ∧
  ∀ uuid appPath,
    getAppInfo platform path fs plist_parse fuel uuid appPath
    = Throws (Error (js "platform not supported: " ++ platform)).
Proof.
  intros Hw Hd. split.
  - unfold getElectronApps, getPossibleAppPaths.
    rewrite (jseqb_neq _ _ Hw), (jseqb_neq _ _ Hd). reflexivity.
  - intros uuid appPath. unfold getAppInfo.
    rewrite (jseqb_neq _ _ Hw), (jseqb_neq _ _ Hd). reflexivity.
Qed.

Lemma unsupported_platform_discovers_nothing_witness :
  getElectronApps (js "linux") test_path (dir_fs acme_dir acme_files)
    (js "/home/u") no_plist (λ _, js "uuid") 0 = Returns ∅ ∧
  ∀ uuid appPath,
    getAppInfo (js "linux") test_path (dir_fs acme_dir acme_files) no_plist 0
      uuid appPath
    = Throws (Error (js "platform not supported: " ++ js "linux")).
Proof.
  apply (unsupported_platform_discovers_nothing (js "linux") test_path
           (dir_fs acme_dir acme_files) (js "/home/u") no_plist (λ _, js "uuid") 0);
    discriminate.
Defined.

(** ** POSIX paths *)

Section PosixFacts.
Import Posix.

Lemma split_nonempty (s : jsstring) : split s ≠ [].
Proof.
  destruct s as [|c s]; simpl; [discriminate|].
  destruct (c =? slash); [discriminate|]. destruct (split s); discriminate.
Qed.

Lemma split_app_segment (seg rest : jsstring) :
  slash ∉ seg →
  split (seg ++ rest) =
  match split rest with
  | h :: t => (seg ++ h) :: t
  | [] => [seg]
  end.
Proof.
  induction seg as [|c seg IH]; intros Hseg; simpl.
  - pose proof (split_nonempty rest). destruct (split rest); [contradiction|reflexivity].
  - apply not_elem_of_cons in Hseg as [Hc Hseg].
    destruct (Z.eqb_spec c slash) as [->|_]; [contradiction|].
    rewrite (IH Hseg). destruct (split rest); reflexivity.
Qed.

Lemma split_rooted (segs : list jsstring) (rest : jsstring) :
  Forall (λ seg, slash ∉ seg) segs →
  split (rooted segs ++ slash :: rest) = [] :: segs ++ split rest.
Proof.
  induction 1 as [|seg segs Hseg _ IH]; [reflexivity|].
  cbn [rooted]. rewrite <- app_comm_cons. cbn [split].
  rewrite Z.eqb_refl. rewrite <- app_assoc.
  rewrite (split_app_segment _ _ Hseg), IH, app_nil_r. reflexivity.
Qed.

Lemma clean_segment_tests (seg : jsstring) :
  clean_segment seg →
  jseqb seg [] = false ∧ jseqb seg dot = false ∧ jseqb seg dotdot = false.
Proof.
  intros (H1 & H2 & H3 & _). repeat split; apply jseqb_neq; assumption.
Qed.

Lemma normalizeSegments_clean allowAboveRoot (segs more res : list jsstring) :
  Forall clean_segment segs →
  normalizeSegments allowAboveRoot (segs ++ more) res =
  normalizeSegments allowAboveRoot more (rev segs ++ res).
Proof.
  intros Hsegs. revert res.
  induction Hsegs as [|seg segs Hseg _ IH]; intros res; [reflexivity|].
  destruct (clean_segment_tests seg Hseg) as (E1 & E2 & E3).
  cbn [app normalizeSegments]. rewrite E1, E2, E3. cbn [orb].
  rewrite IH. cbn [rev]. rewrite <- app_assoc. reflexivity.
Qed.

Lemma rooted_app (segs more : list jsstring) :
  rooted (segs ++ more) = rooted segs ++ rooted more.
Proof.
  induction segs as [|seg segs IH]; [reflexivity|].
  cbn [app rooted]. rewrite IH, <- app_assoc. reflexivity.
Qed.

Lemma unsplit_rooted (segs : list jsstring) :
  segs ≠ [] → slash :: unsplit segs = rooted segs.
Proof.
  induction segs as [|seg segs IH]; [congruence|]. intros _.
  destruct segs as [|seg' segs].
  - cbn. rewrite app_nil_r. reflexivity.
  - change (slash :: seg ++ slash :: unsplit (seg' :: segs)
            = slash :: seg ++ rooted (seg' :: segs)).
    rewrite IH by discriminate. reflexivity.
Qed.

(** [path.resolve] of a clean absolute path and the two relative
    arguments of the darwin branch. *)
Lemma resolve_in_bundle cwd (segs : list jsstring) :
  segs ≠ [] → Forall clean_segment segs →
  resolve cwd [rooted segs; js "Contents/MacOS"; js "Acme"]
  = rooted segs ++ js "/Contents/MacOS/Acme".
Proof.
  intros Hne Hclean. unfold resolve. cbn [rev app].
  match goal with
  | |- context [resolveLoop ?c ?args ?acc] =>
      assert (Hloop : resolveLoop c args acc
                      = (rooted segs ++ slash :: js "Contents/MacOS/Acme/", true))
        by (destruct segs; [congruence|reflexivity]);
      rewrite Hloop
  end. cbn [negb]. unfold normalizeString.
  rewrite split_rooted
    by (eapply Forall_impl; [exact Hclean|]; intros seg Hseg; apply Hseg).
  change (split (js "Contents/MacOS/Acme/"))
    with [js "Contents"; js "MacOS"; js "Acme"; []].
  cbn [normalizeSegments jseqb orb].
  rewrite (normalizeSegments_clean false segs _ [] Hclean).
  change (normalizeSegments false [js "Contents"; js "MacOS"; js "Acme"; []]
            (rev segs ++ []))
    with (rev (js "Acme" :: js "MacOS" :: js "Contents" :: rev segs ++ [])).
  rewrite app_nil_r. cbn [rev]. rewrite rev_involutive, <- !app_assoc.
  cbn [app]. rewrite unsplit_rooted by (destruct segs; [congruence|discriminate]).
  rewrite rooted_app. reflexivity.
Qed.

End PosixFacts.

(** ** Platform B *)

(** C8, as the code has it.  For a bundle that passes the marker check,
    whose property list has the four values of the scenario and whose
    icon file the extractor decodes to [iconUri], [getAppInfo] returns
    the descriptor of the scenario with that icon; [exePath] is
    [path.resolve(appPath, 'Contents/MacOS', 'Acme')], which for an
    absolute bundle path in normal form is the bundle path followed by
    "/Contents/MacOS/Acme". *)
Theorem darwin_descriptor
    cwd basename fs plist_parse fuel uuid appPath content info iconUri :
  fs_existsSync fs
    (Posix.join [appPath; js "Contents/Frameworks/Electron Framework.framework"])
    = true →
  fs_readFile fs (Posix.join [appPath; js "Contents/Info.plist"]) = Some content →
  plist_parse (toString content) = Returns info →
  CFBundleIdentifier info = js "com.acme.app" →
  CFBundleDisplayName info = js "Acme" →
  CFBundleExecutable info = js "Acme" →
  CFBundleIconFile info = js "icon.icns" →
  readIcnsAsImageUri fuel fs
    (Posix.join [appPath; js "Contents"; js "Resources"; js "icon.icns"])
    = Returns iconUri →
  getAppInfo (js "darwin") (posix cwd basename) fs plist_parse fuel uuid appPath
  = Returns (Some
      {| App.id := js "com.acme.app";
         App.name := js "Acme";
         App.icon := iconUri;
         App.appPath := appPath;
         App.exePath :=
           Posix.resolve cwd [appPath; js "Contents/MacOS"; js "Acme"] |}) ∧
  (∀ segs, segs ≠ [] → Forall Posix.clean_segment segs →
     appPath = Posix.rooted segs →
     Posix.resolve cwd [appPath; js "Contents/MacOS"; js "Acme"]
     = appPath ++ js "/Contents/MacOS/Acme").
Proof.
  intros Hmark Hfile Hparse Hid Hname Hexe Hicon Huri. split.
  - change (getAppInfo (js "darwin") (posix cwd basename) fs plist_parse fuel
              uuid appPath)
      with (getAppInfoDarwin (posix cwd basename) fs plist_parse fuel appPath).
    unfold getAppInfoDarwin, readFile. cbn [path_join path_resolve posix].
    rewrite Hmark. cbn [negb]. rewrite Hfile.
    cbn [mbind outcome_mbind outcome_bind]. rewrite Hparse.
    cbn [mbind outcome_mbind outcome_bind]. rewrite Hicon, Huri.
    cbn [mbind outcome_mbind outcome_bind].
    rewrite Hid, Hname, Hexe. reflexivity.
  - intros segs Hne Hclean ->. apply resolve_in_bundle; assumption.
Qed.

Lemma darwin_descriptor_witness :
  getAppInfo (js "darwin") (posix (js "/") no_basename) (acme_fs true)
    acme_plist 1 (js "uuid-0") acme_bundle
  = Returns (Some
      {| App.id := js "com.acme.app";
         App.name := js "Acme";
         App.icon := js "data:image/png;base64,"
                       ++ toBase64 (slice icns44 16 None);
         App.appPath := acme_bundle;
         App.exePath := js "/Applications/Acme.app/Contents/MacOS/Acme" |}).
Proof.
  refine (proj1 (darwin_descriptor (js "/") no_basename (acme_fs true) acme_plist
                   1 (js "uuid-0") acme_bundle (bytes (js "<plist/>")) acme_info
                   (js "data:image/png;base64," ++ toBase64 (slice icns44 16 None))
                   _ _ _ _ _ _ _ _));
    vm_compute; reflexivity.
Defined.

(** C8, as stated, fails: the bundle of Acme without its icon file
    passes the marker check and has the four values in its property
    list, and [getAppInfo] throws instead of returning a descriptor. *)
Lemma darwin_descriptor_needs_icon :
  fs_existsSync (acme_fs false)
    (Posix.join [acme_bundle; js "Contents/Frameworks/Electron Framework.framework"])
    = true ∧
  (content ← readFile (acme_fs false)
               (Posix.join [acme_bundle; js "Contents/Info.plist"]);
   acme_plist (toString content)) = Returns acme_info ∧
  (∀ fuel uuid,
     getAppInfo (js "darwin") (posix (js "/") no_basename) (acme_fs false)
       acme_plist fuel uuid acme_bundle = Throws SystemError) ∧
  ¬ ∃ fuel uuid d,
      getAppInfo (js "darwin") (posix (js "/") no_basename) (acme_fs false)
        acme_plist fuel uuid acme_bundle = Returns (Some d).
Proof.
  assert (H : ∀ fuel uuid,
             getAppInfo (js "darwin") (posix (js "/") no_basename) (acme_fs false)
               acme_plist fuel uuid acme_bundle = Throws SystemError).
  { intros fuel uuid. destruct fuel; vm_compute; reflexivity. }
  split; [vm_compute; reflexivity|].
  split; [vm_compute; reflexivity|].
  split; [exact H|].
  intros (fuel & uuid & d & Hd). rewrite H in Hd. discriminate.
Qed.

(** ** Port detection *)

Lemma matchHere_nonempty prefix s port : matchHere prefix s = Some port → port ≠ [].
Proof.
  unfold matchHere. destruct (matchAtoms prefix s) as [rest|]; [|discriminate].
  simpl. destruct (digits rest) as [[|d ds] [|c rest']]; try discriminate.
  destruct (c =? 47); [|discriminate]. intros [= <-]. discriminate.
Qed.

Lemma exec_nonempty prefix s port : exec prefix s = Some port → port ≠ [].
Proof.
  induction s as [|c s IH]; simpl;
    destruct (matchHere prefix _) eqn:E; try discriminate.
  - intros [= <-]. exact (matchHere_nonempty _ _ _ E).
  - intros [= <-]. exact (matchHere_nonempty _ _ _ E).
  - exact IH.
Qed.

Lemma unset_false port : port ≠ [] → unset (Some port) = false.
Proof. destruct port; [congruence|reflexivity]. Qed.

Lemma next_port_set re port data :
  port ≠ [] → next_port re (Some port) data = Some port.
Proof. intros H. unfold next_port. rewrite (unset_false _ H). reflexivity. Qed.

Lemma next_port_wf re old data : old ≠ Some [] → next_port re old data ≠ Some [].
Proof.
  intros H. unfold next_port. destruct (unset old); [|assumption].
  destruct (exec re data) as [port|] eqn:E; [|assumption].
  intros [= ->]. exact (exec_nonempty _ _ _ E eq_refl).
Qed.

(** One call of the listener on an instance that is registered. *)
Lemma handleStdout_registered id isError chunk store i :
  instanceInfo store !! id = Some i →
  ∃ store',
    handleStdout id isError chunk store = Returns store' ∧
    instanceInfo store' !! id
    = Some {| appId := appId i;
              nodePort := next_port nodeRe (nodePort i) (toString chunk);
              windowPort := next_port windowRe (windowPort i) (toString chunk);
              log := log i ++ [toString chunk] |}.
Proof.
  intros Hi. unfold handleStdout, next_port. rewrite Hi.
  eexists. split; [reflexivity|].
  destruct (unset (nodePort i)), (exec nodeRe (toString chunk)),
           (unset (windowPort i)), (exec windowRe (toString chunk));
    cbn [dispatch reducer instanceInfo];
    rewrite ?lookup_alter_eq, Hi; destruct i; reflexivity.
Qed.

Lemma handleStdout_unregistered id isError chunk store :
  instanceInfo store !! id = None →
  handleStdout id isError chunk store = Throws TypeError.
Proof. intros Hi. unfold handleStdout. rewrite Hi. reflexivity. Qed.

Lemma deliver_data id ev store i :
  is_data ev → instanceInfo store !! id = Some i →
  ∃ chunk store',
    deliver id ev store = Returns store' ∧
    instanceInfo store' !! id
    = Some {| appId := appId i;
              nodePort := next_port nodeRe (nodePort i) (toString chunk);
              windowPort := next_port windowRe (windowPort i) (toString chunk);
              log := log i ++ [toString chunk] |}.
Proof.
  intros Hev Hi. destruct ev as [chunk|chunk| |]; try contradiction;
    exists chunk; apply handleStdout_registered; assumption.
Qed.

Lemma port_of_lookup field id store i :
  instanceInfo store !! id = Some i → port_of field id store = field i.
Proof. intros H. unfold port_of. rewrite H. reflexivity. Qed.

Lemma run_data_keeps_ports id evs :
  Forall is_data evs →
  ∀ store, live id store →
    ∃ store',
      run id evs store = Returns store' ∧ live id store' ∧
      (∀ port, port_of nodePort id store = Some port →
               port_of nodePort id store' = Some port) ∧
      (∀ port, port_of windowPort id store = Some port →
               port_of windowPort id store' = Some port).
Proof.
  induction 1 as [|ev evs Hev _ IH]; intros store Hlive.
  - exists store. repeat split; auto.
  - destruct Hlive as (i & Hi & Hn & Hw).
    destruct (deliver_data id ev store i Hev Hi) as (chunk & s1 & Hrun & Hs1).
    destruct (IH s1) as (s2 & Hrun2 & Hlive2 & Hn2 & Hw2).
    { eexists. split; [exact Hs1|]. split; apply next_port_wf; assumption. }
    exists s2. cbn [run]. rewrite Hrun. cbn [mbind outcome_mbind outcome_bind].
    split; [assumption|]. split; [assumption|].
    rewrite !(port_of_lookup _ _ _ _ Hi).
    split; intros port Hport; [apply Hn2|apply Hw2];
      rewrite (port_of_lookup _ _ _ _ Hs1); cbn; rewrite Hport;
      apply next_port_set; intros ->; congruence.
Qed.

Lemma addInstance_live id appId store :
  live id (dispatch (addInstance id appId) store).
Proof.
  eexists. cbn. rewrite lookup_insert_eq. repeat split; discriminate.
Qed.

(** C5.  From the launch on, through any chunks on the two streams: a
    port that is set after the chunks [evs1] has the same value after any
    further chunks [evs2]; and a chunk that sets a port, fed twice, leaves
    the port at the value captured by the first match. *)
Theorem ports_are_set_once id appId store evs1 evs2 :
  Forall is_data evs1 →
  Forall is_data evs2 →
  ∃ s1 s2,
    run id evs1 (dispatch (addInstance id appId) store) = Returns s1 ∧
    run id evs2 s1 = Returns s2 ∧
    (∀ port, port_of nodePort id s1 = Some port →
             port_of nodePort id s2 = Some port) ∧
    (∀ port, port_of windowPort id s1 = Some port →
             port_of windowPort id s2 = Some port) ∧
    (∀ chunk port,
       port_of nodePort id s1 = None →
       exec nodeRe (toString chunk) = Some port →
       ∃ s3, run id [StdoutData chunk; StdoutData chunk] s1 = Returns s3 ∧
             port_of nodePort id s3 = Some port) ∧
    (∀ chunk port,
       port_of windowPort id s1 = None →
       exec windowRe (toString chunk) = Some port →
       ∃ s3, run id [StdoutData chunk; StdoutData chunk] s1 = Returns s3 ∧
             port_of windowPort id s3 = Some port).
Proof.
  intros H1 H2.
  destruct (run_data_keeps_ports id evs1 H1 _ (addInstance_live id appId store))
    as (s1 & Hrun1 & Hlive1 & _ & _).
  destruct (run_data_keeps_ports id evs2 H2 _ Hlive1)
    as (s2 & Hrun2 & _ & Hn & Hw).
  exists s1, s2. do 4 (split; [assumption|]).
  destruct Hlive1 as (i & Hi & _ & _).
  split; intros chunk port Hnone Hexec;
    rewrite (port_of_lookup _ _ _ _ Hi) in Hnone;
    destruct (handleStdout_registered id false chunk s1 i Hi) as (s' & Hrun' & Hs');
    destruct (handleStdout_registered id false chunk s' _ Hs') as (s3 & Hrun3 & Hs3);
    exists s3; cbn [run deliver]; rewrite Hrun';
    cbn [mbind outcome_mbind outcome_bind]; rewrite Hrun3;
    (split; [reflexivity|]);
    rewrite (port_of_lookup _ _ _ _ Hs3); cbn [nodePort windowPort];
    rewrite Hnone; unfold next_port at 2; cbn [unset]; rewrite Hexec;
    apply next_port_set; exact (exec_nonempty _ _ _ Hexec).
Qed.

Lemma ports_are_set_once_witness :
  ∃ s1 s2,
    run (js "i-1") [StdoutData inspector_chunk]
      (dispatch (addInstance (js "i-1") (js "com.acme.app")) empty_store)
      = Returns s1 ∧
    run (js "i-1") [StderrData second_inspector_chunk; StdoutData devtools_chunk] s1
      = Returns s2 ∧
    (∀ port, port_of nodePort (js "i-1") s1 = Some port →
             port_of nodePort (js "i-1") s2 = Some port) ∧
    (∀ port, port_of windowPort (js "i-1") s1 = Some port →
             port_of windowPort (js "i-1") s2 = Some port) ∧
    (∀ chunk port,
       port_of nodePort (js "i-1") s1 = None →
       exec nodeRe (toString chunk) = Some port →
       ∃ s3, run (js "i-1") [StdoutData chunk; StdoutData chunk] s1 = Returns s3 ∧
             port_of nodePort (js "i-1") s3 = Some port) ∧
    (∀ chunk port,
       port_of windowPort (js "i-1") s1 = None →
       exec windowRe (toString chunk) = Some port →
       ∃ s3, run (js "i-1") [StdoutData chunk; StdoutData chunk] s1 = Returns s3 ∧
             port_of windowPort (js "i-1") s3 = Some port).
Proof.
  apply (ports_are_set_once (js "i-1") (js "com.acme.app") empty_store
           [StdoutData inspector_chunk]
           [StderrData second_inspector_chunk; StdoutData devtools_chunk]);
    repeat constructor.
Defined.

(** The third scenario of the specification, up to the exit: a second
    announcement does not replace the port 9229 of the first. *)
Example inspector_port_9229 :
  ∃ s, run (js "i-1")
         [StdoutData inspector_chunk; StderrData second_inspector_chunk]
         (dispatch (addInstance (js "i-1") (js "com.acme.app")) empty_store)
       = Returns s ∧
       port_of nodePort (js "i-1") s = Some (js "9229").
Proof. eexists. split; [reflexivity|]. vm_compute. reflexivity. Qed.

(** ** Termination of an instance *)

(** The third scenario of the specification: after the announcement and
    the exit with code 0 the entry is absent. *)
Example scenario_inspector_exit :
  ∃ s, startDebugging
         (λ _ _, [StdoutData inspector_chunk; Close (Some 0)])
         (js "i-1") acme_app empty_store = Returns s ∧
       instanceInfo s !! js "i-1" = None.
Proof. eexists. split; [reflexivity|]. vm_compute. reflexivity. Qed.

Lemma run_app id evs1 evs2 store :
  run id (evs1 ++ evs2) store = store' ← run id evs1 store; run id evs2 store'.
Proof.
  revert store. induction evs1 as [|ev evs1 IH]; intros store; [reflexivity|].
  cbn [app run]. destruct (deliver id ev store); cbn; [apply IH|reflexivity..].
Qed.

Lemma removeInstance_absent id store :
  instanceInfo store !! id = None → dispatch (removeInstance id) store = store.
Proof.
  intros H. destruct store as [m]. cbn in *. f_equal. apply delete_id. assumption.
Qed.

(** Once the entry is gone the listeners change nothing: a chunk makes
    [handleStdout] throw before any dispatch. *)
Lemma run_unregistered id evs store :
  instanceInfo store !! id = None →
  run id evs store = Returns store ∨ run id evs store = Throws TypeError.
Proof.
  intros Hnone. induction evs as [|ev evs IH]; [left; reflexivity|].
  cbn [run]. destruct ev as [chunk|chunk|code|]; cbn [deliver].
  - right. rewrite handleStdout_unregistered by assumption. reflexivity.
  - right. rewrite handleStdout_unregistered by assumption. reflexivity.
  - rewrite removeInstance_absent by assumption. exact IH.
  - exact IH.
Qed.

(** What the two listeners of the end of a child do after any events
    that were handled: the ['close'] listener removes the instance and
    nothing changes the store after that; the ['error'] listener leaves
    the store as it is. *)
Lemma close_removes_instance id evs code store s1 :
  run id evs store = Returns s1 →
  (∃ s2,
     run id (evs ++ [Close code]) store = Returns s2 ∧
     instanceInfo s2 !! id = None ∧
     ∀ later,
       run id (evs ++ Close code :: later) store = Returns s2 ∨
       run id (evs ++ Close code :: later) store = Throws TypeError) ∧
  run id (evs ++ [SpawnError]) store = Returns s1.
Proof.
  intros Hrun. split.
  - exists (dispatch (removeInstance id) s1).
    assert (Hgone : instanceInfo (dispatch (removeInstance id) s1) !! id = None)
      by apply lookup_delete_eq.
    split; [rewrite run_app, Hrun; reflexivity|].
    split; [assumption|].
    intros later. rewrite run_app, Hrun.
    cbn [mbind outcome_mbind outcome_bind run deliver].
    apply run_unregistered. assumption.
  - rewrite run_app, Hrun. reflexivity.
Qed.




(** A spawn that fails for want of the executable: the registry is as it
    was before the launch. *)
Example scenario_spawn_failure :
  startDebugging (λ _ _, [SpawnError; Close (Some (-2))])
    (js "i-1") acme_app empty_store = Returns empty_store.
Proof. vm_compute. reflexivity. Qed.

(** * Further properties *)

(** ** Text of a buffer *)

Lemma utf8_lead_ascii (b : Z) : b < 128 → utf8_lead b = ([b], utf8_init).
Proof. intros H. unfold utf8_lead. destruct (Z.ltb_spec b 128); [reflexivity|lia]. Qed.

Lemma utf8_lead_high (b : Z) :
  128 ≤ b < 256 →
  utf8_lead b = ([65533], utf8_init) ∨
  ∃ st, utf8_lead b = ([], st) ∧ utf8_pending st.
Proof.
  intros Hb. unfold utf8_lead.
  destruct (Z.ltb_spec b 128); [lia|].
  destruct (Z.leb_spec 194 b), (Z.leb_spec b 223); cbn [andb].
  1: { right. eexists. split; [reflexivity|]. unfold utf8_pending. cbn.
       Z.div_mod_to_equations. lia. }
  all: destruct (Z.leb_spec 224 b), (Z.leb_spec b 239); cbn [andb];
       try (right; eexists; split; [reflexivity|]; unfold utf8_pending; cbn;
            destruct (Z.eqb_spec b 224), (Z.eqb_spec b 237);
            Z.div_mod_to_equations; lia).
  all: destruct (Z.leb_spec 240 b), (Z.leb_spec b 244); cbn [andb];
       try (right; eexists; split; [reflexivity|]; unfold utf8_pending; cbn;
            destruct (Z.eqb_spec b 240), (Z.eqb_spec b 244);
            Z.div_mod_to_equations; lia).
  all: left; reflexivity.
Qed.

Lemma emit_head (cp : Z) : 128 ≤ cp → ∃ c rest, emit cp = c :: rest ∧ 128 ≤ c.
Proof.
  intros H. unfold emit. destruct (Z.ltb_spec cp 65536).
  - eexists _, _. split; [reflexivity|lia].
  - eexists _, _. split; [reflexivity|]. Z.div_mod_to_equations. lia.
Qed.

(** While a sequence is open, the next code unit written is not ASCII. *)
Lemma utf8_pending_head (bs : list byte) :
  ∀ st, utf8_pending st →
    ∃ c rest, utf8_decode st bs = c :: rest ∧ 128 ≤ c.
Proof.
  induction bs as [|b bs IH]; intros st (Hlo & Hup & Hst); cbv zeta in Hst.
  - cbn. destruct (Z.eqb_spec (u_needed st) 0); [lia|].
    eexists _, _. split; [reflexivity|lia].
  - cbn [utf8_decode]. unfold utf8_step.
    destruct (Z.eqb_spec (u_needed st) 0); [lia|].
    destruct (Z.ltb_spec (byte_val b) (u_lower st)); cbn [orb].
    { destruct (utf8_lead (byte_val b)) as [out st'].
      eexists _, _. split; [reflexivity|lia]. }
    destruct (Z.ltb_spec (u_upper st) (byte_val b)).
    { destruct (utf8_lead (byte_val b)) as [out st'].
      eexists _, _. split; [reflexivity|lia]. }
    assert (Hmod : byte_val b mod 64 = byte_val b - 128)
      by (Z.div_mod_to_equations; lia).
    destruct (Z.eqb_spec (u_needed st) 1).
    + destruct (emit_head (u_cp st * 64 + byte_val b mod 64)) as (c & rest & E & Hc);
        [lia|].
      rewrite E. eexists _, _. split; [reflexivity|assumption].
    + cbn [app]. apply IH. unfold utf8_pending. cbn. lia.
Qed.

(** A buffer whose text is made of ASCII characters holds exactly the
    bytes of that text. *)
Lemma toString_ascii_bytes (bs : list byte) (s : jsstring) :
  toString bs = s → Forall (λ c, c < 128) s → map byte_val bs = s.
Proof.
  unfold toString. revert s. induction bs as [|b bs IH]; intros s Hs Hascii.
  - subst s. reflexivity.
  - cbn [utf8_decode] in Hs. unfold utf8_step in Hs. cbn [u_needed utf8_init] in Hs.
    cbn [Z.eqb] in Hs.
    destruct (Z.lt_ge_cases (byte_val b) 128) as [Hlt|Hge].
    + rewrite (utf8_lead_ascii _ Hlt) in Hs. subst s. cbn [app] in *.
      inversion Hascii; subst. cbn [map]. f_equal. apply IH; [reflexivity|assumption].
    + pose proof (byte_val_range b) as Hb.
      destruct (utf8_lead_high (byte_val b)) as [E|(st & E & Hst)]; [lia|..];
        rewrite E in Hs.
      * subst s. inversion Hascii; subst. lia.
      * destruct (utf8_pending_head bs st Hst) as (c & rest & E' & Hc).
        rewrite E' in Hs. subst s. inversion Hascii; subst. lia.
Qed.

(** ** More on slices *)

Lemma adjustOffset_nonneg (offset len : Z) :
  0 ≤ offset → 0 ≤ len → adjustOffset offset len = Z.min offset len.
Proof. intros H1 H2. unfold adjustOffset. zcases; lia. Qed.

(** [buf.slice(a, b)] with indices that are not negative: the bytes from
    [a] up to [b], as far as the buffer has them. *)
Lemma slice_take_drop (buf : list byte) (a b : nat) :
  slice buf (Z.of_nat a) (Some (Z.of_nat b)) = take (b - a) (drop a buf).
Proof.
  unfold slice. rewrite !adjustOffset_nonneg by lia.
  destruct (Nat.le_gt_cases (length buf) a) as [Hge|Hlt].
  - rewrite (drop_ge buf a) by assumption.
    rewrite Z.min_r by lia. rewrite Nat2Z.id, drop_all.
    rewrite !take_nil. reflexivity.
  - rewrite (Z.min_l (Z.of_nat a)) by lia. rewrite Nat2Z.id.
    destruct (Z.ltb_spec (Z.of_nat a) (Z.min (Z.of_nat b) (Z.of_nat (length buf))))
      as [H|H].
    + destruct (Nat.le_gt_cases b (length buf)) as [Hb|Hb].
      * rewrite Z.min_l by lia. f_equal. lia.
      * rewrite Z.min_r by lia.
        rewrite !take_ge by (rewrite length_drop; lia). reflexivity.
    + replace (b - a)%nat with 0%nat by lia. reflexivity.
Qed.

Lemma at_lookup (buf : list byte) (i : nat) :
  at_ buf (Z.of_nat i) = byte_val <$> buf !! i.
Proof.
  unfold at_. destruct (Z.ltb_spec (Z.of_nat i) 0); [lia|].
  rewrite Nat2Z.id. reflexivity.
Qed.

(** The test of the source holds only for the bytes of "PNG". *)
Lemma png_test_bytes (imageData : list byte) :
  jseqb (toString (slice imageData 1 (Some 4))) (js "PNG") = true →
  at_ imageData 1 = Some 80 ∧ at_ imageData 2 = Some 78 ∧ at_ imageData 3 = Some 71.
Proof.
  intros H. apply jseqb_eq in H. apply toString_ascii_bytes in H;
    [|repeat constructor].
  change (slice imageData 1 (Some 4))
    with (slice imageData (Z.of_nat 1) (Some (Z.of_nat 4))) in H.
  rewrite slice_take_drop in H.
  change (at_ imageData 1) with (at_ imageData (Z.of_nat 1)).
  change (at_ imageData 2) with (at_ imageData (Z.of_nat 2)).
  change (at_ imageData 3) with (at_ imageData (Z.of_nat 3)).
  rewrite !at_lookup.
  destruct imageData as [|b0 [|b1 [|b2 [|b3 rest]]]]; try discriminate H.
  cbn in H. injection H as H1 H2 H3.
  cbn.
  rewrite H1, H2, H3. repeat split.
Qed.

(** ** The icon extractor on other inputs *)

(** X1.  A payload whose bytes 1 to 3 are not those of "PNG" gives the empty
    string. *)
Theorem other_payload_gives_empty_string fuel fs file icons e :
  parseIcons fuel fs file = Returns icons →
  selectIcon icons = Returns e →
  ¬ (at_ (icon_data e) 1 = Some 80 ∧ at_ (icon_data e) 2 = Some 78 ∧
     at_ (icon_data e) 3 = Some 71) →
  readIcnsAsImageUri fuel fs file = Returns emptyString.
Proof.
  intros Hparse Hsel Hnot. unfold readIcnsAsImageUri.
  rewrite Hparse. cbn [mbind outcome_mbind outcome_bind]. rewrite Hsel.
  cbn [mbind outcome_mbind outcome_bind]. unfold imageUri.
  destruct (jseqb _ _) eqn:E; [|reflexivity].
  apply png_test_bytes in E. contradiction.
Qed.

Lemma other_payload_gives_empty_string_witness :
  readIcnsAsImageUri 1 (single_file icon_file icns_raw) icon_file
  = Returns emptyString.
Proof.
  apply (other_payload_gives_empty_string 1 (single_file icon_file icns_raw)
           icon_file [icns_raw_entry] icns_raw_entry).
  - vm_compute. reflexivity.
  - vm_compute. reflexivity.
  - intros (H & _). vm_compute in H. discriminate H.
Defined.

Lemma readInt32BE_short (buf : list byte) (offset : nat) :
  (length buf < offset + 4)%nat →
  readInt32BE buf (Z.of_nat offset) = Throws RangeError.
Proof.
  intros H. unfold readInt32BE.
  replace (Z.of_nat offset + 3) with (Z.of_nat (offset + 3)) by lia.
  rewrite (at_lookup buf (offset + 3)).
  rewrite (lookup_ge_None_2 buf (offset + 3)) by lia.
  destruct (at_ buf (Z.of_nat offset)), (at_ buf (Z.of_nat offset + 1)),
           (at_ buf (Z.of_nat offset + 2)); reflexivity.
Qed.

(** X3.  A file that cannot be read makes the extractor reject with the
    error of the file system; a file of fewer than 8 bytes makes it throw
    the RangeError of [readInt32BE(4)].  Neither depends on the fuel. *)
Theorem unreadable_or_short_file_throws fuel fs file :
  (fs_readFile fs file = None →
   readIcnsAsImageUri fuel fs file = Throws SystemError) ∧
  (∀ buf, fs_readFile fs file = Some buf → (length buf < 8)%nat →
   readIcnsAsImageUri fuel fs file = Throws RangeError).
Proof.
  split.
  - intros H. unfold readIcnsAsImageUri, parseIcons, readFile. rewrite H. reflexivity.
  - intros buf H Hlen. unfold readIcnsAsImageUri, parseIcons, readFile. rewrite H.
    cbn [mbind outcome_mbind outcome_bind].
    change 4 with (Z.of_nat 4).
    rewrite (readInt32BE_short buf 4) by lia. reflexivity.
Qed.

Lemma unreadable_or_short_file_throws_witness :
  readIcnsAsImageUri 0 (single_file icon_file icns_short) (js "/other.icns")
    = Throws SystemError ∧
  readIcnsAsImageUri 0 (single_file icon_file icns_short) icon_file
    = Throws RangeError.
Proof.
  split.
  - apply (proj1 (unreadable_or_short_file_throws 0
                    (single_file icon_file icns_short) (js "/other.icns"))).
    vm_compute. reflexivity.
  - apply (proj2 (unreadable_or_short_file_throws 0
                    (single_file icon_file icns_short) icon_file) icns_short).
    + vm_compute. reflexivity.
    + vm_compute. lia.
Defined.

(** ** Reading a container that is well formed *)

Lemma byte_val_of_Z (z : Z) : 0 ≤ z < 256 → byte_val (byte_of_Z z) = z.
Proof.
  intros Hz. unfold byte_val, byte_of_Z.
  destruct (Byte.of_N (Z.to_N z)) as [b|] eqn:E.
  - apply Byte.to_of_N in E. rewrite E. lia.
  - apply Byte.of_N_None_iff in E. lia.
Qed.

Lemma at_app_r (pre l : list byte) (k : nat) :
  at_ (pre ++ l) (Z.of_nat (length pre) + Z.of_nat k) = at_ l (Z.of_nat k).
Proof.
  rewrite <- Nat2Z.inj_add, !at_lookup.
  rewrite lookup_app_r by lia. do 2 f_equal. lia.
Qed.

Lemma readInt32BE_be32 (pre post : list byte) (n : Z) :
  0 ≤ n < 2 ^ 31 →
  readInt32BE (pre ++ be32 n ++ post) (Z.of_nat (length pre)) = Returns n.
Proof.
  intros Hn. unfold readInt32BE.
  replace (Z.of_nat (length pre)) with (Z.of_nat (length pre) + Z.of_nat 0) at 1 by lia.
  change 1 with (Z.of_nat 1). change 2 with (Z.of_nat 2) at 1.
  change 3 with (Z.of_nat 3).
  rewrite !at_app_r, !at_lookup. cbn [be32 app lookup list_lookup fmap option_fmap option_map].
  rewrite !byte_val_of_Z by (Z.div_mod_to_equations; lia).
  f_equal.
  destruct (Z.ltb_spec ((n / 2 ^ 24) mod 256) 128);
    Z.div_mod_to_equations; lia.
Qed.

Lemma slice_middle (pre x post : list byte) :
  slice (pre ++ x ++ post) (Z.of_nat (length pre))
    (Some (Z.of_nat (length pre) + Z.of_nat (length x))) = x.
Proof.
  rewrite <- Nat2Z.inj_add, slice_take_drop.
  rewrite drop_app_length.
  replace (length pre + length x - length pre)%nat with (length x) by lia.
  apply take_app_length.
Qed.

Lemma length_be32 (n : Z) : length (be32 n) = 4%nat.
Proof. reflexivity. Qed.

Lemma length_entry_bytes (e : list byte * list byte) :
  length e.1 = 4%nat →
  Z.of_nat (length (entry_bytes e)) = 8 + Z.of_nat (length e.2).
Proof.
  intros H. unfold entry_bytes. rewrite !length_app, length_be32, H. lia.
Qed.

(** The loop on the entries still to be read, [pre] being what it has
    gone over. *)
Lemma parse_loop_body (entries : list (list byte * list byte)) :
  Forall (λ e, length e.1 = 4%nat) entries →
  ∀ (pre : list byte) (icons : list IconEntry) (fuel : nat),
    Z.of_nat (length (pre ++ body_bytes entries)) < 2 ^ 31 →
    (length entries ≤ fuel)%nat →
    parse_loop fuel (pre ++ body_bytes entries)
      (Z.of_nat (length (pre ++ body_bytes entries))) (Z.of_nat (length pre)) icons
    = Returns (icons ++ map entry_icon entries).
Proof.
  induction 1 as [|e entries He _ IH]; intros pre icons fuel Hlen Hfuel.
  - unfold body_bytes. cbn [map concat]. rewrite !app_nil_r.
    apply parse_loop_exit. lia.
  - destruct fuel as [|fuel]; [cbn in Hfuel; lia|].
    pose proof (length_entry_bytes e He) as Hsize.
    assert (Hbody : body_bytes (e :: entries) = entry_bytes e ++ body_bytes entries)
      by reflexivity.
    rewrite Hbody in *. rewrite !length_app in Hlen.
    rewrite parse_loop_step by (rewrite !length_app; lia).
    destruct e as [ty payload]. cbn [fst snd] in *.
    set (size := 8 + Z.of_nat (length payload)) in *.
    assert (Hread : readInt32BE (pre ++ entry_bytes (ty, payload) ++ body_bytes entries)
                      (Z.of_nat (length pre) + 4) = Returns size).
    { unfold entry_bytes. cbn [fst snd]. fold size.
      replace (pre ++ (ty ++ be32 size ++ payload) ++ body_bytes entries)
        with ((pre ++ ty) ++ be32 size ++ (payload ++ body_bytes entries))
        by (rewrite <- !app_assoc; reflexivity).
      replace (Z.of_nat (length pre) + 4) with (Z.of_nat (length (pre ++ ty)))
        by (rewrite length_app; lia).
      apply readInt32BE_be32. subst size. lia. }
    rewrite Hread. cbn [mbind outcome_mbind outcome_bind].
    assert (Hty : slice (pre ++ entry_bytes (ty, payload) ++ body_bytes entries)
                    (Z.of_nat (length pre)) (Some (Z.of_nat (length pre) + 4)) = ty).
    { unfold entry_bytes. cbn [fst snd]. rewrite <- !app_assoc.
      replace 4 with (Z.of_nat (length ty)) by lia. apply slice_middle. }
    assert (Hdata : slice (pre ++ entry_bytes (ty, payload) ++ body_bytes entries)
                      (Z.of_nat (length pre) + 8)
                      (Some (Z.of_nat (length pre) + size)) = payload).
    { unfold entry_bytes. cbn [fst snd]. fold size.
      replace (pre ++ (ty ++ be32 size ++ payload) ++ body_bytes entries)
        with ((pre ++ ty ++ be32 size) ++ payload ++ body_bytes entries)
        by (rewrite <- !app_assoc; reflexivity).
      replace (Z.of_nat (length pre) + 8)
        with (Z.of_nat (length (pre ++ ty ++ be32 size)))
        by (rewrite !length_app, length_be32; lia).
      replace (Z.of_nat (length pre) + size)
        with (Z.of_nat (length (pre ++ ty ++ be32 size)) + Z.of_nat (length payload))
        by (rewrite !length_app, length_be32; subst size; lia).
      apply slice_middle. }
    rewrite Hty, Hdata.
    replace (Z.of_nat (length pre) + size)
      with (Z.of_nat (length (pre ++ entry_bytes (ty, payload))))
      by (rewrite length_app; lia).
    replace (pre ++ entry_bytes (ty, payload) ++ body_bytes entries)
      with ((pre ++ entry_bytes (ty, payload)) ++ body_bytes entries)
      by (rewrite <- app_assoc; reflexivity).
    rewrite IH.
    + rewrite <- app_assoc. reflexivity.
    + rewrite !length_app. lia.
    + cbn in Hfuel. lia.
Qed.

(** The statements before the loop, on a file of the container format:
    the loop runs on the entries, up to their total length. *)
Lemma parseIcons_container fuel fs file magic entries :
  fs_readFile fs file = Some (container magic entries) →
  length magic = 4%nat →
  8 + Z.of_nat (length (body_bytes entries)) < 2 ^ 31 →
  parseIcons fuel fs file
  = parse_loop fuel (body_bytes entries)
      (Z.of_nat (length (body_bytes entries))) 0 [].
Proof.
  intros Hfile Hmagic Hlen.
  unfold parseIcons, readFile. rewrite Hfile.
  cbn [mbind outcome_mbind outcome_bind]. unfold container.
  replace 4 with (Z.of_nat (length magic)) at 1 by lia.
  rewrite readInt32BE_be32 by lia.
  cbn [mbind outcome_mbind outcome_bind].
  assert (Hslice : slice (magic ++ be32 (8 + Z.of_nat (length (body_bytes entries)))
                            ++ body_bytes entries) 8 None
                   = body_bytes entries).
  { unfold slice. rewrite !length_app, length_be32, Hmagic.
    rewrite adjustOffset_inside by lia.
    destruct (Z.ltb_spec 8 (Z.of_nat (4 + (4 + length (body_bytes entries))))).
    - rewrite app_assoc.
      replace (Z.to_nat 8) with (length (magic ++ be32 (8 + Z.of_nat (length (body_bytes entries)))))
        by (rewrite length_app, length_be32, Hmagic; reflexivity).
      rewrite drop_app_length. apply take_ge. lia.
    - assert (body_bytes entries = []) as -> by (apply nil_length_inv; lia).
      reflexivity. }
  rewrite Hslice. f_equal. lia.
Qed.

Lemma parse_loop_entries_of_container fuel entries :
  Forall (λ e, length e.1 = 4%nat) entries →
  8 + Z.of_nat (length (body_bytes entries)) < 2 ^ 31 →
  (length entries ≤ fuel)%nat →
  parse_loop fuel (body_bytes entries)
    (Z.of_nat (length (body_bytes entries))) 0 []
  = Returns (map entry_icon entries).
Proof.
  intros Hty Hlen Hfuel.
  change 0 with (Z.of_nat (length (@nil byte))).
  change (body_bytes entries) with ([] ++ body_bytes entries).
  rewrite (parse_loop_body entries Hty [] []); [reflexivity| |assumption].
  cbn [app]. lia.
Qed.

(** X4.  A file written in the container format is read back entry by
    entry: the loop returns one object per entry, in file order, with the
    payload as its data, and needs one iteration per entry. *)
Theorem well_formed_container_is_parsed fuel fs file magic entries :
  fs_readFile fs file = Some (container magic entries) →
  length magic = 4%nat →
  Forall (λ e, length e.1 = 4%nat) entries →
  8 + Z.of_nat (length (body_bytes entries)) < 2 ^ 31 →
  (length entries ≤ fuel)%nat →
  parseIcons fuel fs file = Returns (map entry_icon entries).
Proof.
  intros Hfile Hmagic Hty Hlen Hfuel.
  rewrite (parseIcons_container fuel fs file magic entries) by assumption.
  apply parse_loop_entries_of_container; assumption.
Qed.

Lemma well_formed_container_is_parsed_witness :
  parseIcons 2 (single_file icon_file (container (bytes (js "icns")) two_entries))
    icon_file
  = Returns (map entry_icon two_entries).
Proof.
  apply (well_formed_container_is_parsed 2 _ icon_file (bytes (js "icns")) two_entries).
  - vm_compute. reflexivity.
  - reflexivity.
  - repeat constructor.
  - vm_compute. reflexivity.
  - cbn. lia.
Defined.

(** The entry [icons.sort] puts first, told from a cut of the list. *)
Lemma sort_head_of_cut (l1 : list IconEntry) (e : IconEntry) (l2 : list IconEntry) :
  Forall (λ x, icon_size x < icon_size e) l1 →
  Forall (λ x, icon_size x ≤ icon_size e) l2 →
  ∃ rest, sort bySizeDesc (l1 ++ e :: l2) = e :: rest.
Proof.
  intros H1 H2. induction H1 as [|x l1 Hx _ IH].
  - cbn [app]. rewrite sort_cons.
    destruct (sort bySizeDesc l2) as [|h t] eqn:E; [eexists; reflexivity|].
    assert (Hh : icon_size h ≤ icon_size e).
    { assert (h ∈ l2) as Hin by (rewrite <- (sort_perm bySizeDesc l2), E; left).
      rewrite Forall_forall in H2. apply H2. assumption. }
    cbn [sort_insert]. unfold bySizeDesc at 1.
    destruct (Z.ltb_spec 0 (icon_size h - icon_size e)); [lia|].
    eexists. reflexivity.
  - destruct IH as (rest & IH). cbn [app]. rewrite sort_cons, IH.
    cbn [sort_insert]. unfold bySizeDesc at 1.
    destruct (Z.ltb_spec 0 (icon_size e - icon_size x)); [|lia].
    eexists. reflexivity.
Qed.

(** X5.  On a container that is well formed and has an entry, the extractor
    returns: it gives the image text of the first of the longest
    payloads. *)
Theorem well_formed_container_result fuel fs file magic l1 e l2 :
  fs_readFile fs file = Some (container magic (l1 ++ e :: l2)) →
  length magic = 4%nat →
  Forall (λ e, length e.1 = 4%nat) (l1 ++ e :: l2) →
  8 + Z.of_nat (length (body_bytes (l1 ++ e :: l2))) < 2 ^ 31 →
  (length (l1 ++ e :: l2) ≤ fuel)%nat →
  Forall (λ x, (length x.2 < length e.2)%nat) l1 →
  Forall (λ x, (length x.2 ≤ length e.2)%nat) l2 →
  readIcnsAsImageUri fuel fs file = Returns (imageUri e.2).
Proof.
  intros Hfile Hmagic Hty Hlen Hfuel H1 H2. unfold readIcnsAsImageUri.
  rewrite (parseIcons_container fuel fs file magic (l1 ++ e :: l2)) by assumption.
  rewrite parse_loop_entries_of_container by assumption.
  cbn [mbind outcome_mbind outcome_bind]. unfold selectIcon.
  rewrite map_app. cbn [map].
  destruct (sort_head_of_cut (map entry_icon l1) (entry_icon e) (map entry_icon l2))
    as (rest & Hs).
  - apply Forall_map. eapply Forall_impl; [exact H1|]. cbn. intros. lia.
  - apply Forall_map. eapply Forall_impl; [exact H2|]. cbn. intros. lia.
  - rewrite Hs. reflexivity.
Qed.

Lemma well_formed_container_result_witness :
  readIcnsAsImageUri 2
    (single_file icon_file (container (bytes (js "icns")) two_entries)) icon_file
  = Returns (js "data:image/png;base64," ++ toBase64 (bytes [0; 80; 78; 71; 1; 2; 3])).
Proof.
  apply (well_formed_container_result 2 _ icon_file (bytes (js "icns"))
           [(bytes (js "ic07"), bytes [0; 80; 78; 71; 1])]
           (bytes (js "ic08"), bytes [0; 80; 78; 71; 1; 2; 3]) []).
  - vm_compute. reflexivity.
  - reflexivity.
  - repeat constructor.
  - vm_compute. reflexivity.
  - cbn. lia.
  - repeat constructor.
  - constructor.
Defined.

(** ** The loop on containers that are not well formed *)

(** What the loop does from an offset it reaches, it does from the
    start, given the fuel for the way there. *)
Lemma parse_loop_from_head buf totalSize start (r : outcome (list IconEntry)) :
  loop_head buf totalSize start →
  (∃ k, ∀ fuel icons, (k ≤ fuel)%nat →
          parse_loop fuel buf totalSize start icons = r) →
  ∃ k, ∀ fuel icons, (k ≤ fuel)%nat →
         parse_loop fuel buf totalSize 0 icons = r.
Proof.
  induction 1 as [|start size Hhead IH Hlt Hread]; intros (k & Hk);
    [exists k; exact Hk|].
  apply IH. exists (S k). intros [|fuel] icons Hfuel; [lia|].
  rewrite parse_loop_step, Hread by assumption.
  cbn [mbind outcome_mbind outcome_bind]. apply Hk. lia.
Qed.

(** X6.  An entry whose header is not inside the buffer makes the extractor
    throw the RangeError of [readInt32BE], once the loop has the fuel to
    reach it. *)
Theorem header_out_of_range_throws fs file buf totalSize start :
  loop_input fs file buf totalSize →
  loop_head buf totalSize start →
  start < totalSize →
  readInt32BE buf (start + 4) = Throws RangeError →
  ∃ k, ∀ fuel, (k ≤ fuel)%nat →
    readIcnsAsImageUri fuel fs file = Throws RangeError.
Proof.
  intros Hin Hhead Hlt Hread.
  destruct (parse_loop_from_head buf totalSize start (Throws RangeError) Hhead)
    as (k & Hk).
  - exists 1%nat. intros [|fuel] icons Hfuel; [lia|].
    rewrite parse_loop_step, Hread by assumption. reflexivity.
  - exists k. intros fuel Hfuel. unfold readIcnsAsImageUri.
    rewrite (parseIcons_loop fuel _ _ _ _ Hin), Hk by assumption. reflexivity.
Qed.

Lemma header_out_of_range_throws_witness :
  ∃ k, ∀ fuel, (k ≤ fuel)%nat →
    readIcnsAsImageUri fuel (single_file icon_file icns_truncated) icon_file
    = Throws RangeError.
Proof.
  apply (header_out_of_range_throws (single_file icon_file icns_truncated)
           icon_file (slice icns_truncated 8 None) 16 8).
  - exists icns_truncated, 24. repeat split; vm_compute; reflexivity.
  - apply (head_next _ _ 0 8); [constructor|lia|vm_compute; reflexivity].
  - lia.
  - vm_compute. reflexivity.
Defined.

Lemma loop_path_consumes buf totalSize start stop :
  loop_path buf totalSize start stop →
  ∀ fuel icons,
    parse_loop fuel buf totalSize start icons = Diverges ∨
    ∃ fuel' icons', (fuel' < fuel)%nat ∧
      parse_loop fuel buf totalSize start icons
      = parse_loop fuel' buf totalSize stop icons'.
Proof.
  induction 1 as [start size Hlt Hread|start size stop Hlt Hread _ IH];
    intros [|fuel] icons;
    try (left; apply parse_loop_out_of_fuel; assumption);
    rewrite parse_loop_step, Hread by assumption;
    cbn [mbind outcome_mbind outcome_bind].
  - right. eexists fuel, _. split; [lia|reflexivity].
  - destruct (IH fuel (icons ++
        [{| icon_type := toString (slice buf start (Some (start + 4)));
            icon_size := size;
            icon_data := slice buf (start + 8) (Some (start + size)) |}]))
      as [Hdiv|(fuel' & icons' & Hlt' & Heq)].
    + left. exact Hdiv.
    + right. exists fuel', icons'. split; [lia|exact Heq].
Qed.

Lemma loop_cycle_never_ends buf totalSize start :
  loop_path buf totalSize start start →
  ∀ fuel icons, parse_loop fuel buf totalSize start icons = Diverges.
Proof.
  intros Hpath fuel. induction (lt_wf fuel) as [fuel _ IH]. intros icons.
  destruct (loop_path_consumes _ _ _ _ Hpath fuel icons)
    as [Hdiv|(fuel' & icons' & Hlt & Heq)]; [exact Hdiv|].
  rewrite Heq. apply IH. assumption.
Qed.

(** X7.  When the lengths lead the loop back to an offset it has been at (a
    length 0, or a negative length that points to an earlier entry), the
    loop does not end with any fuel, and neither does the extractor. *)
Theorem offset_cycle_diverges fs file buf totalSize start :
  loop_input fs file buf totalSize →
  loop_head buf totalSize start →
  loop_path buf totalSize start start →
  ∀ fuel, readIcnsAsImageUri fuel fs file = Diverges.
Proof.
  intros Hin Hhead Hpath fuel. apply readIcns_diverges.
  rewrite (parseIcons_loop fuel _ _ _ _ Hin).
  apply (parse_loop_diverges_from buf totalSize start Hhead).
  apply loop_cycle_never_ends. assumption.
Qed.

Lemma offset_cycle_diverges_witness :
  loop_path (slice icns_cycle 8 None) 16 0 0 ∧
  ∀ fuel, readIcnsAsImageUri fuel (single_file icon_file icns_cycle) icon_file
          = Diverges.
Proof.
  assert (Hpath : loop_path (slice icns_cycle 8 None) 16 0 0).
  { apply (path_more _ _ 0 8 0); [lia|vm_compute; reflexivity|].
    apply (path_one _ _ 8 (-8)); [lia|vm_compute; reflexivity]. }
  split; [exact Hpath|].
  apply (offset_cycle_diverges (single_file icon_file icns_cycle) icon_file
           (slice icns_cycle 8 None) 16 0).
  - exists icns_cycle, 24. repeat split; vm_compute; reflexivity.
  - constructor.
  - exact Hpath.
Defined.

(** ** The record of an instance *)

Lemma next_port_first_capture re old text texts :
  old ≠ Some [] →
  foldl (next_port re) (next_port re old text) texts
  = match old with
    | Some port => Some port
    | None => first_capture re (text :: texts)
    end.
Proof.
  revert old text. induction texts as [|t texts IH]; intros old text Hold.
  - cbn. unfold next_port. destruct old as [[|c port]|]; try congruence; cbn;
      [reflexivity|]. destruct (exec re text); reflexivity.
  - cbn [foldl]. rewrite IH by (apply next_port_wf; assumption).
    unfold next_port at 1. destruct old as [[|c port]|]; try congruence; cbn;
      [reflexivity|].
    destruct (exec re text); reflexivity.
Qed.

Lemma foldl_next_port_first_capture re texts :
  foldl (next_port re) None texts = first_capture re texts.
Proof.
  destruct texts as [|text texts]; [reflexivity|].
  cbn [foldl]. rewrite next_port_first_capture by discriminate. reflexivity.
Qed.

Lemma deliver_chunk id ev store i :
  is_data ev → instanceInfo store !! id = Some i →
  ∃ text store',
    chunk_text ev = Some text ∧
    deliver id ev store = Returns store' ∧
    instanceInfo store' !! id
    = Some {| appId := appId i;
              nodePort := next_port nodeRe (nodePort i) text;
              windowPort := next_port windowRe (windowPort i) text;
              log := log i ++ [text] |}.
Proof.
  intros Hev Hi. destruct ev as [chunk|chunk| |]; try contradiction;
    cbn [deliver chunk_text];
    [destruct (handleStdout_registered id false chunk store i Hi) as (s & Hs & Hl)
    |destruct (handleStdout_registered id true chunk store i Hi) as (s & Hs & Hl)];
    exists (toString chunk), s; repeat split; assumption.
Qed.

Lemma chunk_texts_cons ev evs text :
  chunk_text ev = Some text → chunk_texts (ev :: evs) = text :: chunk_texts evs.
Proof. intros H. unfold chunk_texts. simpl. rewrite H. reflexivity. Qed.

(** The chunks of a run seen from the record of the instance. *)
Lemma run_data_record id evs :
  Forall is_data evs →
  ∀ store i,
    instanceInfo store !! id = Some i →
    ∃ store',
      run id evs store = Returns store' ∧
      instanceInfo store' !! id
      = Some {| appId := appId i;
                nodePort := foldl (next_port nodeRe) (nodePort i) (chunk_texts evs);
                windowPort := foldl (next_port windowRe) (windowPort i) (chunk_texts evs);
                log := log i ++ chunk_texts evs |}.
Proof.
  induction 1 as [|ev evs Hev _ IH]; intros store i Hi.
  - exists store. split; [reflexivity|]. cbn. rewrite app_nil_r, Hi.
    destruct i; reflexivity.
  - destruct (deliver_chunk id ev store i Hev Hi) as (text & s1 & Htext & Hrun & Hs1).
    destruct (IH s1 _ Hs1) as (s2 & Hrun2 & Hs2).
    exists s2. cbn [run]. rewrite Hrun. cbn [mbind outcome_mbind outcome_bind].
    split; [assumption|]. rewrite Hs2, (chunk_texts_cons _ _ _ Htext).
    cbn. rewrite <- app_assoc. reflexivity.
Qed.

Lemma addInstance_lookup id appId store :
  instanceInfo (dispatch (addInstance id appId) store) !! id
  = Some {| appId := appId; nodePort := None; windowPort := None; log := [] |}.
Proof. cbn. apply lookup_insert_eq. Qed.

(** X21.  From the launch on, the log of the instance is the texts of the
    chunks received on the two streams, every one of them, in the order
    of their arrival. *)
Theorem log_is_chunks_in_order spawn id app store evs :
  spawn (App.exePath app) [js "--inspect=0"; js "--remote-debugging-port=0"] = evs →
  Forall is_data evs →
  ∃ store' i,
    startDebugging spawn id app store = Returns store' ∧
    instanceInfo store' !! id = Some i ∧
    appId i = App.id app ∧
    log i = chunk_texts evs.
Proof.
  intros Hspawn Hevs. unfold startDebugging. rewrite Hspawn.
  destruct (run_data_record id evs Hevs _ _
              (addInstance_lookup id (App.id app) store)) as (s & Hrun & Hs).
  exists s. eexists. split; [exact Hrun|]. split; [exact Hs|]. split; reflexivity.
Qed.

Lemma log_is_chunks_in_order_witness :
  ∃ store' i,
    startDebugging (λ _ _, [StdoutData plain_chunk; StderrData inspector_chunk])
      (js "i-1") acme_app empty_store = Returns store' ∧
    instanceInfo store' !! js "i-1" = Some i ∧
    appId i = App.id acme_app ∧
    log i = [js "App ready";
             js "Debugger listening on ws://127.0.0.1:9229/abc"].
Proof.
  apply (log_is_chunks_in_order
           (λ _ _, [StdoutData plain_chunk; StderrData inspector_chunk])
           (js "i-1") acme_app empty_store
           [StdoutData plain_chunk; StderrData inspector_chunk]).
  - reflexivity.
  - repeat constructor.
Defined.

(** X22.  From the launch on, each port of the instance is the capture of the
    first chunk that its expression matches, on either stream, and is not
    set as long as no chunk matches. *)
Theorem ports_are_first_captures spawn id app store evs :
  spawn (App.exePath app) [js "--inspect=0"; js "--remote-debugging-port=0"] = evs →
  Forall is_data evs →
  ∃ store',
    startDebugging spawn id app store = Returns store' ∧
    port_of nodePort id store' = first_capture nodeRe (chunk_texts evs) ∧
    port_of windowPort id store' = first_capture windowRe (chunk_texts evs).
Proof.
  intros Hspawn Hevs. unfold startDebugging. rewrite Hspawn.
  destruct (run_data_record id evs Hevs _ _
              (addInstance_lookup id (App.id app) store)) as (s & Hrun & Hs).
  exists s. split; [exact Hrun|].
  rewrite !(port_of_lookup _ _ _ _ Hs). cbn [nodePort windowPort].
  rewrite !foldl_next_port_first_capture. split; reflexivity.
Qed.

Lemma ports_are_first_captures_witness :
  ∃ store',
    startDebugging
      (λ _ _, [StdoutData plain_chunk; StderrData inspector_chunk;
               StdoutData second_inspector_chunk])
      (js "i-1") acme_app empty_store = Returns store' ∧
    port_of nodePort (js "i-1") store' = Some (js "9229") ∧
    port_of windowPort (js "i-1") store' = None.
Proof.
  apply (ports_are_first_captures
           (λ _ _, [StdoutData plain_chunk; StderrData inspector_chunk;
                    StdoutData second_inspector_chunk])
           (js "i-1") acme_app empty_store
           [StdoutData plain_chunk; StderrData inspector_chunk;
            StdoutData second_inspector_chunk]).
  - reflexivity.
  - repeat constructor.
Defined.

(** ** Several instances *)

Lemma deliver_other id id' ev store store' :
  id ≠ id' → deliver id ev store = Returns store' →
  instanceInfo store' !! id' = instanceInfo store !! id'.
Proof.
  intros Hne. assert (Hh : ∀ isError chunk,
    handleStdout id isError chunk store = Returns store' →
    instanceInfo store' !! id' = instanceInfo store !! id').
  { intros isError chunk. unfold handleStdout.
    destruct (instanceInfo store !! id) as [i|]; [|discriminate].
    intros [= <-].
    destruct (unset (nodePort i)), (exec nodeRe (toString chunk)),
             (unset (windowPort i)), (exec windowRe (toString chunk));
      cbn [dispatch reducer instanceInfo];
      rewrite ?lookup_alter_ne by assumption; reflexivity. }
  destruct ev as [chunk|chunk|code|]; cbn [deliver].
  - apply Hh.
  - apply Hh.
  - intros [= <-]. cbn. apply lookup_delete_ne. assumption.
  - intros [= <-]. reflexivity.
Qed.

Lemma run_keeps_others id id' evs store store' :
  id ≠ id' →
  run id evs store = Returns store' →
  instanceInfo store' !! id' = instanceInfo store !! id'.
Proof.
  intros Hne. revert store. induction evs as [|ev evs IH]; intros store.
  - intros [= <-]. reflexivity.
  - cbn [run]. destruct (deliver id ev store) as [s1| |] eqn:E; try discriminate.
    cbn [mbind outcome_mbind outcome_bind]. intros Hrun.
    rewrite (IH _ Hrun). apply (deliver_other id id' ev); assumption.
Qed.

(** X23.  A launch and the listeners of its instance never change the
    record of another instance: whatever the child emits, the entries
    under other ids stay as they were. *)
Theorem other_instances_untouched spawn id id' app store store' :
  id ≠ id' →
  startDebugging spawn id app store = Returns store' →
  instanceInfo store' !! id' = instanceInfo store !! id'.
Proof.
  intros Hne Hrun. unfold startDebugging in Hrun.
  rewrite (run_keeps_others id id' _ _ _ Hne Hrun).
  cbn [dispatch reducer instanceInfo]. apply lookup_insert_ne. assumption.
Qed.

Lemma other_instances_untouched_witness :
  instanceInfo
    (dispatch (removeInstance (js "i-1"))
       (dispatch (updateLog (js "i-1")
                    (js "Debugger listening on ws://127.0.0.1:9229/abc"))
          (dispatch (updateNodePort (js "i-1") (js "9229"))
             (dispatch (addInstance (js "i-1") (js "com.acme.app")) two_instances))))
    !! js "i-2"
  = instanceInfo two_instances !! js "i-2".
Proof.
  apply (other_instances_untouched
           (λ _ _, [StdoutData inspector_chunk; Close (Some 0)])
           (js "i-1") (js "i-2") acme_app two_instances).
  - discriminate.
  - vm_compute. reflexivity.
Defined.

(** X24.  A session from the launch to the exit leaves the registry as it was
    before the launch, when the id was not in use. *)
Theorem session_leaves_no_trace spawn id app store evs code :
  spawn (App.exePath app) [js "--inspect=0"; js "--remote-debugging-port=0"]
    = evs ++ [Close code] →
  Forall is_data evs →
  instanceInfo store !! id = None →
  startDebugging spawn id app store = Returns store.
Proof.
  intros Hspawn Hevs Hfresh. unfold startDebugging. rewrite Hspawn, run_app.
  destruct (run_data_record id evs Hevs _ _
              (addInstance_lookup id (App.id app) store)) as (s & Hrun & Hs).
  rewrite Hrun. cbn [mbind outcome_mbind outcome_bind run deliver]. f_equal.
  destruct store as [m]. cbn in *. f_equal. apply map_eq. intros k.
  destruct (decide (id = k)) as [<-|Hne].
  - rewrite lookup_delete_eq. symmetry. assumption.
  - rewrite lookup_delete_ne by assumption.
    rewrite (run_keeps_others id k evs _ s Hne Hrun). cbn.
    apply lookup_insert_ne. assumption.
Qed.

Lemma session_leaves_no_trace_witness :
  startDebugging (λ _ _, [StdoutData inspector_chunk] ++ [Close (Some 0)])
    (js "i-1") acme_app empty_store = Returns empty_store.
Proof.
  apply (session_leaves_no_trace
           (λ _ _, [StdoutData inspector_chunk] ++ [Close (Some 0)])
           (js "i-1") acme_app empty_store [StdoutData inspector_chunk] (Some 0)).
  - reflexivity.
  - repeat constructor.
  - reflexivity.
Defined.

(** ** The two expressions *)

Lemma matchAtoms_split p s rest :
  matchAtoms p s = Some rest → ∃ matched, s = matched ++ rest.
Proof.
  revert s. induction p as [|a p IH]; intros s.
  - cbn. destruct s; intros [= <-]; exists []; reflexivity.
  - destruct s as [|c s]; [discriminate|]. cbn.
    destruct (matchAtom a c); [|discriminate]. intros H.
    destruct (IH _ H) as (m & ->). exists (c :: m). reflexivity.
Qed.

Lemma digits_split s :
  s = (digits s).1 ++ (digits s).2 ∧ Forall (λ c, isDigit c = true) (digits s).1.
Proof.
  induction s as [|c s [IH1 IH2]]; [split; [reflexivity|constructor]|].
  cbn [digits]. destruct (isDigit c) eqn:E.
  - destruct (digits s) as [ds rest]. cbn in *. split; [congruence|].
    constructor; assumption.
  - split; [reflexivity|constructor].
Qed.

Lemma matchHere_capture prefix s port :
  matchHere prefix s = Some port →
  port ≠ [] ∧ Forall (λ c, isDigit c = true) port ∧
  ∃ before after, s = before ++ port ++ 47 :: after.
Proof.
  unfold matchHere. destruct (matchAtoms prefix s) as [rest|] eqn:E; [|discriminate].
  cbn [mbind option_bind]. destruct (matchAtoms_split _ _ _ E) as (m & ->).
  pose proof (digits_split rest) as [Hsplit Hdig].
  destruct (digits rest) as [[|d ds] [|c rest']]; try discriminate.
  destruct (Z.eqb_spec c 47) as [->|]; [|discriminate]. intros [= <-].
  cbn [fst snd] in *. split; [discriminate|]. split; [assumption|].
  exists m, rest'. rewrite Hsplit. reflexivity.
Qed.

(** X19.  What [exec] captures is a run of one or more decimal digits of the
    text, and the text has a "/" right after it. *)
Theorem captured_port_is_decimal prefix text port :
  exec prefix text = Some port →
  port ≠ [] ∧ Forall (λ c, 48 ≤ c ≤ 57) port ∧
  ∃ before after, text = before ++ port ++ 47 :: after.
Proof.
  intros H.
  assert (port ≠ [] ∧ Forall (λ c, isDigit c = true) port ∧
          ∃ before after, text = before ++ port ++ 47 :: after) as (H1 & H2 & H3).
  { revert H. induction text as [|c text IH]; cbn [exec];
      destruct (matchHere prefix _) as [m|] eqn:E; try discriminate.
    - intros [= <-]. apply (matchHere_capture _ _ _ E).
    - intros [= <-]. apply (matchHere_capture _ _ _ E).
    - intros H. destruct (IH H) as (H1 & H2 & before & after & ->).
      split; [assumption|]. split; [assumption|].
      exists (c :: before), after. reflexivity. }
  split; [assumption|]. split; [|assumption].
  eapply Forall_impl; [exact H2|]. intros c. unfold isDigit.
  rewrite andb_true_iff, !Z.leb_le. tauto.
Qed.

Lemma captured_port_is_decimal_witness :
  js "9229" ≠ [] ∧ Forall (λ c, 48 ≤ c ≤ 57) (js "9229") ∧
  ∃ before after,
    js "Debugger listening on ws://127.0.0.1:9229/abc"
    = before ++ js "9229" ++ 47 :: after.
Proof.
  apply (captured_port_is_decimal nodeRe
           (js "Debugger listening on ws://127.0.0.1:9229/abc") (js "9229")).
  vm_compute. reflexivity.
Defined.

Lemma matchAtoms_lits (s : jsstring) (p : list atom) (text : jsstring) :
  matchAtoms (map Lit s ++ p) (s ++ text) = matchAtoms p text.
Proof.
  induction s as [|c s IH]; [reflexivity|].
  cbn. rewrite Z.eqb_refl. exact IH.
Qed.

Lemma matchAtoms_any (c : Z) (p : list atom) (text : jsstring) :
  lineTerminator c = false →
  matchAtoms (AnyChar :: p) (c :: text) = matchAtoms p text.
Proof. intros H. cbn. rewrite H. reflexivity. Qed.

Lemma digits_run (ds rest : jsstring) (c : Z) :
  Forall (λ d, isDigit d = true) ds → isDigit c = false →
  digits (ds ++ c :: rest) = (ds, c :: rest).
Proof.
  intros Hds Hc. induction Hds as [|d ds Hd _ IH]; cbn.
  - rewrite Hc. reflexivity.
  - rewrite Hd, IH. reflexivity.
Qed.

(** X20.  A text that starts with the announcement is matched, and the
    capture is the whole run of digits before the "/".  The three dots of
    the address are not escaped in the source: any character that is not
    a line terminator is accepted in their place. *)
Theorem announcement_is_captured (label : string) (a b c : Z) (port rest : jsstring) :
  lineTerminator a = false →
  lineTerminator b = false →
  lineTerminator c = false →
  port ≠ [] →
  Forall (λ d, isDigit d = true) port →
  exec (ipPrefix label)
    (js label ++ js " listening on ws://127" ++ [a] ++ js "0" ++ [b] ++ js "0"
       ++ [c] ++ js "1:" ++ port ++ 47 :: rest)
  = Some port.
Proof.
  intros Ha Hb Hc Hne Hport.
  assert (Hhere : matchHere (ipPrefix label)
            (js label ++ js " listening on ws://127" ++ [a] ++ js "0" ++ [b]
               ++ js "0" ++ [c] ++ js "1:" ++ port ++ 47 :: rest) = Some port).
  { unfold matchHere, ipPrefix, lits.
    rewrite !matchAtoms_lits. cbn [app].
    rewrite (matchAtoms_any a) by assumption.
    rewrite (matchAtoms_lits (js "0")). cbn [app].
    rewrite (matchAtoms_any b) by assumption.
    rewrite (matchAtoms_lits (js "0")). cbn [app].
    rewrite (matchAtoms_any c) by assumption.
    rewrite (matchAtoms_lits (js "1:") []). cbn [matchAtoms mbind option_bind].
    rewrite digits_run by (assumption || reflexivity).
    destruct port; [congruence|]. reflexivity. }
  destruct (js label ++ _) eqn:E; cbn [exec]; rewrite Hhere; reflexivity.
Qed.

Lemma announcement_is_captured_witness :
  exec nodeRe
    (js "Debugger" ++ js " listening on ws://127" ++ [46] ++ js "0" ++ [46]
       ++ js "0" ++ [46] ++ js "1:" ++ js "9229" ++ 47 :: js "abc")
  = Some (js "9229") ∧
  exec windowRe
    (js "DevTools" ++ js " listening on ws://127" ++ [120] ++ js "0" ++ [121]
       ++ js "0" ++ [122] ++ js "1:" ++ js "5" ++ 47 :: [])
  = Some (js "5").
Proof.
  split.
  - apply (announcement_is_captured "Debugger" 46 46 46 (js "9229") (js "abc"));
      try reflexivity; [discriminate|repeat constructor].
  - apply (announcement_is_captured "DevTools" 120 121 122 (js "5") []);
      try reflexivity; [discriminate|repeat constructor].
Defined.

(** ** Platform A, the other way round *)

Lemma filter_head {A} (p : A → bool) (l : list A) (x : A) (t : list A) :
  List.filter p l = x :: t →
  ∃ l1 l2, l = l1 ++ x :: l2 ∧ Forall (λ y, p y = false) l1 ∧ p x = true.
Proof.
  induction l as [|y l IH]; [discriminate|]. cbn.
  destruct (p y) eqn:E.
  - intros [= -> <-]. exists [], l. repeat split; [constructor|assumption].
  - intros H. destruct (IH H) as (l1 & l2 & -> & H1 & H2).
    exists (y :: l1), l2. repeat split; [constructor|]; assumption.
Qed.

(** X8.  A descriptor returned on win32 comes from a directory that could be
    listed and passes the signature check; its executable is the first
    listed name that ends in ".exe" and is not excluded; its id is the
    fresh uuid, its icon the empty string, its path the one given. *)
Theorem win32_descriptor_origin path fs plist_parse fuel uuid appPath d :
  getAppInfo (js "win32") path fs plist_parse fuel uuid appPath = Returns (Some d) →
  ∃ files l1 exeFile l2,
    fs_readdir fs appPath = Some files ∧
    isElectronBasedWin32 path fs appPath files = true ∧
    files = l1 ++ exeFile :: l2 ∧
    Forall (λ f, isExeFile f = false) l1 ∧
    endsWith exeFile (js ".exe") = true ∧
    excluded exeFile = false ∧
    d = {| App.id := uuid;
           App.name := path_basename path exeFile (js ".exe");
           App.icon := emptyString;
           App.appPath := appPath;
           App.exePath := path_resolve path [appPath; exeFile] |}.
Proof.
  rewrite getAppInfo_win32. unfold getAppInfoWin32.
  destruct (fs_readdir fs appPath) as [files|]; [|discriminate].
  destruct (isElectronBasedWin32 path fs appPath files) eqn:Hmark; [|discriminate].
  cbn [negb].
  destruct (List.filter isExeFile files) as [|exeFile t] eqn:Hf; [discriminate|].
  destruct (filter_head _ _ _ _ Hf) as (l1 & l2 & -> & Hl1 & Hexe).
  unfold isExeFile in Hexe. apply andb_true_iff in Hexe as [He Hx].
  apply negb_true_iff in Hx.
  destruct exeFile as [|c exeFile]; [discriminate|].
  intros [= <-]. exists (l1 ++ (c :: exeFile) :: l2), l1, (c :: exeFile), l2.
  repeat split; assumption.
Qed.

Lemma win32_descriptor_origin_witness :
  ∃ files l1 exeFile l2,
    fs_readdir (dir_fs acme_dir acme_files) acme_dir = Some files ∧
    isElectronBasedWin32 test_path (dir_fs acme_dir acme_files) acme_dir files = true ∧
    files = l1 ++ exeFile :: l2 ∧
    Forall (λ f, isExeFile f = false) l1 ∧
    endsWith exeFile (js ".exe") = true ∧
    excluded exeFile = false ∧
    {| App.id := js "uuid-0"; App.name := js "Acme"; App.icon := emptyString;
       App.appPath := acme_dir;
       App.exePath := js "c:/Program Files/Acme/Acme.exe" |}
    = {| App.id := js "uuid-0";
         App.name := path_basename test_path exeFile (js ".exe");
         App.icon := emptyString;
         App.appPath := acme_dir;
         App.exePath := path_resolve test_path [acme_dir; exeFile] |}.
Proof.
  apply (win32_descriptor_origin test_path (dir_fs acme_dir acme_files) no_plist 0
           (js "uuid-0") acme_dir).
  vm_compute. reflexivity.
Defined.

(** ** Names that are excluded *)

Lemma toLowerCase_app (s t : jsstring) :
  toLowerCase (s ++ t) = toLowerCase s ++ toLowerCase t.
Proof. unfold toLowerCase. rewrite map_app, concat_app. reflexivity. Qed.

Lemma startsWith_app (p rest : jsstring) : startsWith (p ++ rest) p = true.
Proof.
  induction p as [|c p IH]; [destruct rest; reflexivity|].
  cbn. rewrite Z.eqb_refl. exact IH.
Qed.

Lemma includes_middle (before p after : jsstring) :
  includes (before ++ p ++ after) p = true.
Proof.
  induction before as [|c before IH].
  - cbn [app]. destruct (p ++ after) eqn:E; cbn [includes];
      rewrite <- E, startsWith_app; reflexivity.
  - cbn [app includes]. rewrite IH. apply orb_true_r.
Qed.

(** X9.  A name that holds "update" or "uninstall" in any mix of upper and
    lower case, anywhere in it, is never taken as the executable. *)
Theorem keyword_names_are_excluded (before word after : jsstring) :
  toLowerCase word = js "update" ∨ toLowerCase word = js "uninstall" →
  excluded (before ++ word ++ after) = true ∧
  isExeFile (before ++ word ++ after) = false.
Proof.
  intros H.
  assert (Hx : excluded (before ++ word ++ after) = true).
  { unfold excluded. rewrite !toLowerCase_app. cbn [existsb].
    destruct H as [-> | ->]; rewrite includes_middle;
      [apply orb_true_r|reflexivity]. }
  split; [assumption|]. unfold isExeFile. rewrite Hx. apply andb_false_r.
Qed.

Lemma keyword_names_are_excluded_witness :
  excluded (js "Squirrel-" ++ js "UpDate" ++ js ".exe") = true ∧
  isExeFile (js "Squirrel-" ++ js "UpDate" ++ js ".exe") = false.
Proof.
  apply (keyword_names_are_excluded (js "Squirrel-") (js "UpDate") (js ".exe")).
  left. reflexivity.
Defined.

(** ** Discovery *)

Lemma byId_from (infos : list AppInfo) :
  ∀ (m : gmap jsstring AppInfo) k,
    foldl (λ a b, <[App.id b := b]> a) m infos !! k
    = match last (with_id k infos) with
      | Some d => Some d
      | None => m !! k
      end.
Proof.
  induction infos as [|x infos IH]; intros m k; [reflexivity|].
  cbn [foldl]. rewrite IH. unfold with_id. cbn [List.filter].
  destruct (bool_decide_reflect (App.id x = k)) as [Hk|Hk].
  - fold (with_id k infos). rewrite last_cons.
    destruct (last (with_id k infos)); [reflexivity|].
    rewrite <- Hk. apply lookup_insert_eq.
  - fold (with_id k infos).
    destruct (last (with_id k infos)); [reflexivity|].
    apply lookup_insert_ne. assumption.
Qed.

Lemma byId_lookup (infos : list AppInfo) (k : jsstring) :
  byId infos !! k = last (with_id k infos).
Proof.
  unfold byId. rewrite byId_from, lookup_empty.
  destruct (last (with_id k infos)); reflexivity.
Qed.

Lemma getElectronApps_collected platform path fs homedir plist_parse v4 fuel m :
  getElectronApps platform path fs homedir plist_parse v4 fuel = Returns m →
  ∃ infos,
    collectInfos platform path fs plist_parse v4 fuel
      (getPossibleAppPaths platform path fs homedir) [] = Returns infos ∧
    m = byId infos.
Proof.
  unfold getElectronApps.
  destruct (collectInfos _ _ _ _ _ _ _ _) as [infos| |]; try discriminate.
  cbn [mbind outcome_mbind outcome_bind]. intros [= <-].
  exists infos. split; reflexivity.
Qed.

Lemma with_id_member (k : jsstring) (infos : list AppInfo) (d : AppInfo) :
  last (with_id k infos) = Some d → App.id d = k ∧ d ∈ infos.
Proof.
  intros Hd. apply last_Some_elem_of in Hd.
  unfold with_id in Hd. apply list_elem_of_In, filter_In in Hd as [Hin Hk].
  apply bool_decide_eq_true in Hk. split; [assumption|].
  apply list_elem_of_In. assumption.
Qed.

(** X15.  In the mapping that [getElectronApps] returns, as long as no
    descriptor collected has the id "__proto__" (for which the assignment
    sets the prototype of the object instead of a property), the value
    under a key is the last descriptor collected with that id: a later
    descriptor replaces an earlier one of the same id, and every value
    sits under its own id. *)
Theorem discovery_last_id_wins platform path fs homedir plist_parse v4 fuel m :
  getElectronApps platform path fs homedir plist_parse v4 fuel = Returns m →
  ∃ infos,
    collectInfos platform path fs plist_parse v4 fuel
      (getPossibleAppPaths platform path fs homedir) [] = Returns infos ∧
    (Forall (λ d, App.id d ≠ js "__proto__") infos →
     (∀ k, m !! k = last (with_id k infos)) ∧
     (∀ k d, m !! k = Some d → App.id d = k ∧ d ∈ infos) ∧
     m !! js "__proto__" = None).
Proof.
  intros Hrun.
  destruct (getElectronApps_collected _ _ _ _ _ _ _ _ Hrun) as (infos & Hc & ->).
  exists infos. split; [assumption|]. intros Hproto.
  split; [apply byId_lookup|].
  split; [intros k d Hd; rewrite byId_lookup in Hd; apply with_id_member; assumption|].
  rewrite byId_lookup.
  destruct (last (with_id (js "__proto__") infos)) as [d|] eqn:E; [|reflexivity].
  destruct (with_id_member _ _ _ E) as [Hid Hin].
  rewrite Forall_forall in Hproto. destruct (Hproto d Hin Hid).
Qed.

Lemma getAppInfoWin32_returns path fs uuid appPath :
  ∃ r, getAppInfoWin32 path fs uuid appPath = Returns r.
Proof.
  unfold getAppInfoWin32. destruct (fs_readdir fs appPath) as [files|];
    [|eexists; reflexivity].
  destruct (negb _); [eexists; reflexivity|].
  destruct (List.filter isExeFile files) as [|[|c f] t]; eexists; reflexivity.
Qed.

(** X10.  On win32 [getAppInfo] returns for every path, and so does
    discovery, whatever the file system holds and with any fuel. *)
Theorem win32_discovery_always_returns path fs homedir plist_parse v4 fuel :
  (∀ uuid appPath, ∃ r,
     getAppInfo (js "win32") path fs plist_parse fuel uuid appPath = Returns r) ∧
  ∃ m, getElectronApps (js "win32") path fs homedir plist_parse v4 fuel = Returns m.
Proof.
  split; [intros uuid appPath; rewrite getAppInfo_win32;
          apply getAppInfoWin32_returns|].
  unfold getElectronApps.
  assert (H : ∀ appPaths infos, ∃ out,
             collectInfos (js "win32") path fs plist_parse v4 fuel appPaths infos
             = Returns out).
  { induction appPaths as [|p appPaths IH]; intros infos; [eexists; reflexivity|].
    cbn [collectInfos]. rewrite getAppInfo_win32.
    destruct (getAppInfoWin32_returns path fs (v4 (length infos)) p) as (r & ->).
    cbn [mbind outcome_mbind outcome_bind]. destruct r; apply IH. }
  destruct (H (getPossibleAppPaths (js "win32") path fs homedir) []) as (out & ->).
  eexists. reflexivity.
Qed.

(** ** Discovery, continued *)

Lemma discovery_last_id_wins_witness :
  ∃ infos,
    collectInfos (js "win32") test_path program_files_fs no_plist
      (λ _, js "uuid-0") 0
      (getPossibleAppPaths (js "win32") test_path program_files_fs (js "c:/Users/u"))
      [] = Returns infos ∧
    (∀ k, (<[js "uuid-0" := acme_exe_info (js "uuid-0") "c:/Program Files/Beta" "Beta.exe"]>
             (∅ : gmap jsstring AppInfo)) !! k = last (with_id k infos)) ∧
    (∀ k d, (<[js "uuid-0" := acme_exe_info (js "uuid-0") "c:/Program Files/Beta" "Beta.exe"]>
               (∅ : gmap jsstring AppInfo)) !! k = Some d →
            App.id d = k ∧ d ∈ infos) ∧
    (<[js "uuid-0" := acme_exe_info (js "uuid-0") "c:/Program Files/Beta" "Beta.exe"]>
       (∅ : gmap jsstring AppInfo)) !! js "__proto__" = None.
Proof.
  destruct (discovery_last_id_wins (js "win32") test_path program_files_fs
              (js "c:/Users/u") no_plist (λ _, js "uuid-0") 0
              (<[js "uuid-0" := acme_exe_info (js "uuid-0") "c:/Program Files/Beta" "Beta.exe"]>
                 (∅ : gmap jsstring AppInfo)))
    as (infos & Hc & H).
  - vm_compute. reflexivity.
  - exists infos. split; [exact Hc|]. apply H.
    assert (E : Returns infos
                = Returns [acme_exe_info (js "uuid-0") "c:/Program Files/Acme" "Acme.exe";
                           acme_exe_info (js "uuid-0") "c:/Program Files/Beta" "Beta.exe"])
      by (rewrite <- Hc; vm_compute; reflexivity).
    injection E as ->. repeat constructor; discriminate.
Defined.

Lemma collectInfos_throws platform path fs plist_parse v4 fuel p l2 e :
  (∀ uuid, getAppInfo platform path fs plist_parse fuel uuid p = Throws e) →
  ∀ l1 infos,
    Forall (λ q, ∀ uuid, ∃ r,
              getAppInfo platform path fs plist_parse fuel uuid q = Returns r) l1 →
    collectInfos platform path fs plist_parse v4 fuel (l1 ++ p :: l2) infos
    = Throws e.
Proof.
  intros Hp. induction l1 as [|q l1 IH]; intros infos Hl1.
  - cbn [app collectInfos]. rewrite Hp. reflexivity.
  - inversion Hl1 as [|? ? Hq Hrest]; subst.
    cbn [app collectInfos]. destruct (Hq (v4 (length infos))) as (r & ->).
    cbn [mbind outcome_mbind outcome_bind]. destruct r; apply IH; assumption.
Qed.

(** X18.  The scan stops at the first candidate for which [getAppInfo] throws:
    [getElectronApps] rejects with that error and returns no mapping,
    the descriptors collected before it and the candidates after it
    notwithstanding. *)
Theorem discovery_stops_at_first_error
    platform path fs homedir plist_parse v4 fuel l1 p l2 e :
  getPossibleAppPaths platform path fs homedir = l1 ++ p :: l2 →
  Forall (λ q, ∀ uuid, ∃ r,
            getAppInfo platform path fs plist_parse fuel uuid q = Returns r) l1 →
  (∀ uuid, getAppInfo platform path fs plist_parse fuel uuid p = Throws e) →
  getElectronApps platform path fs homedir plist_parse v4 fuel = Throws e.
Proof.
  intros Hpaths Hl1 Hp. unfold getElectronApps. rewrite Hpaths.
  rewrite (collectInfos_throws _ _ _ _ _ _ _ _ _ Hp l1 [] Hl1). reflexivity.
Qed.

Lemma discovery_stops_at_first_error_witness :
  getElectronApps (js "darwin") (posix (js "/") no_basename) applications_fs
    (js "/Users/u") acme_plist (λ _, js "uuid-0") 0 = Throws SystemError.
Proof.
  apply (discovery_stops_at_first_error (js "darwin") (posix (js "/") no_basename)
           applications_fs (js "/Users/u") acme_plist (λ _, js "uuid-0") 0
           [js "/Applications/Notes.app"] (js "/Applications/Acme.app")
           [js "/Applications/Other.app"] SystemError).
  - vm_compute. reflexivity.
  - constructor; [|constructor]. intros uuid. eexists. vm_compute. reflexivity.
  - intros uuid. vm_compute. reflexivity.
Defined.

(** ** Platform B, the failures *)

Lemma getAppInfo_darwin path fs plist_parse fuel uuid appPath :
  getAppInfo (js "darwin") path fs plist_parse fuel uuid appPath
  = getAppInfoDarwin path fs plist_parse fuel appPath.
Proof. reflexivity. Qed.

(** X11.  On darwin [getAppInfo] returns [undefined] exactly when the
    framework marker is absent; nothing else is read then. *)
Theorem darwin_undefined_iff_no_marker path fs plist_parse fuel uuid appPath :
  getAppInfo (js "darwin") path fs plist_parse fuel uuid appPath = Returns None ↔
  fs_existsSync fs
    (path_join path [appPath; js "Contents/Frameworks/Electron Framework.framework"])
  = false.
Proof.
  rewrite getAppInfo_darwin. unfold getAppInfoDarwin.
  destruct (fs_existsSync fs _); cbn [negb]; split; try reflexivity; try discriminate.
  intros H. exfalso.
  destruct (readFile fs _) as [content| |]; try discriminate H.
  cbn [mbind outcome_mbind outcome_bind] in H.
  destruct (plist_parse _) as [info| |]; try discriminate H.
  cbn [mbind outcome_mbind outcome_bind] in H.
  destruct (readIcnsAsImageUri _ _ _) as [uri| |]; discriminate H.
Qed.

(** X12.  On a bundle with the marker, every failure on the way to the
    descriptor is the result of [getAppInfo]: a property list that cannot
    be read, an error of the parser, an error of the icon extractor, and
    an icon whose parsing does not end. *)
Theorem darwin_failures_propagate path fs plist_parse fuel uuid appPath :
  fs_existsSync fs
    (path_join path [appPath; js "Contents/Frameworks/Electron Framework.framework"])
  = true →
  (fs_readFile fs (path_join path [appPath; js "Contents/Info.plist"]) = None →
   getAppInfo (js "darwin") path fs plist_parse fuel uuid appPath
   = Throws SystemError) ∧
  (∀ content,
     fs_readFile fs (path_join path [appPath; js "Contents/Info.plist"])
     = Some content →
     (∀ e, plist_parse (toString content) = Throws e →
        getAppInfo (js "darwin") path fs plist_parse fuel uuid appPath = Throws e) ∧
     (∀ info, plist_parse (toString content) = Returns info →
        (∀ e, readIcnsAsImageUri fuel fs
                (path_join path [appPath; js "Contents"; js "Resources";
                                 CFBundleIconFile info]) = Throws e →
           getAppInfo (js "darwin") path fs plist_parse fuel uuid appPath
           = Throws e) ∧
        (readIcnsAsImageUri fuel fs
           (path_join path [appPath; js "Contents"; js "Resources";
                            CFBundleIconFile info]) = Diverges →
         getAppInfo (js "darwin") path fs plist_parse fuel uuid appPath
         = Diverges))).
Proof.
  intros Hmark. rewrite getAppInfo_darwin. unfold getAppInfoDarwin, readFile.
  rewrite Hmark. cbn [negb]. split.
  - intros ->. reflexivity.
  - intros content ->. cbn [mbind outcome_mbind outcome_bind]. split.
    + intros e ->. reflexivity.
    + intros info ->. cbn [mbind outcome_mbind outcome_bind].
      split; [intros e ->|intros ->]; reflexivity.
Qed.

Lemma darwin_failures_propagate_witness :
  fs_readFile (acme_fs false)
    (path_join (posix (js "/") no_basename) [acme_bundle; js "Contents/Info.plist"])
  = Some (bytes (js "<plist/>")) ∧
  getAppInfo (js "darwin") (posix (js "/") no_basename) (acme_fs false)
    (λ _, Throws SyntaxError) 0 (js "uuid-0") acme_bundle = Throws SyntaxError.
Proof.
  split; [vm_compute; reflexivity|].
  refine (proj1 (proj2 (darwin_failures_propagate (posix (js "/") no_basename)
                          (acme_fs false) (λ _, Throws SyntaxError) 0 (js "uuid-0")
                          acme_bundle _) (bytes (js "<plist/>")) _) SyntaxError _);
    vm_compute; reflexivity.
Defined.

(** ** The candidates of discovery *)

Section PosixJoin.
Import Posix.

Lemma clean_segmentb_correct (seg : jsstring) :
  clean_segmentb seg = true → clean_segment seg.
Proof.
  unfold clean_segmentb. rewrite !andb_true_iff, !negb_true_iff.
  intros [[[H1 H2] H3] H4].
  repeat split; try (intros ->; discriminate).
  intros Hin. apply list_elem_of_In in Hin.
  assert (existsb (Z.eqb slash) seg = true); [|congruence].
  apply existsb_exists. exists slash. split; [assumption|apply Z.eqb_refl].
Qed.

Lemma split_segment (seg : jsstring) : slash ∉ seg → split seg = [seg].
Proof.
  intros H. rewrite <- (app_nil_r seg) at 1.
  rewrite (split_app_segment seg [] H). cbn. rewrite app_nil_r. reflexivity.
Qed.

Lemma trailingSeparator_segment (before seg : jsstring) :
  seg ≠ [] → slash ∉ seg → trailingSeparator (before ++ seg) = false.
Proof.
  intros Hne Hseg. unfold trailingSeparator.
  destruct (last (before ++ seg)) as [c|] eqn:E; [|reflexivity].
  assert (c ∈ seg).
  { destruct seg as [|d seg] using rev_ind; [congruence|].
    rewrite app_assoc, last_snoc in E. injection E as <-.
    apply elem_of_app. right. left. }
  destruct (Z.eqb_spec c slash) as [->|]; [contradiction|reflexivity].
Qed.

(** [path.join] of a clean absolute directory and a clean name. *)
Lemma join_in_directory (segs : list jsstring) (file : jsstring) :
  segs ≠ [] → Forall clean_segment segs → clean_segment file →
  join [rooted segs; file] = rooted (segs ++ [file]).
Proof.
  intros Hne Hsegs Hfile.
  assert (Hroot : ∃ rest, rooted segs = slash :: rest)
    by (destruct segs; [congruence|eexists; reflexivity]).
  destruct Hroot as (rest & Hroot).
  destruct Hfile as (Hf1 & Hf2 & Hf3 & Hf4).
  unfold join. rewrite Hroot.
  assert (Hfilter : filter (λ a : jsstring, a ≠ []) [slash :: rest; file]
                    = [slash :: rest; file]).
  { rewrite filter_cons_True by discriminate.
    rewrite filter_cons_True by assumption. reflexivity. }
  rewrite Hfilter. cbn [unsplit]. rewrite <- Hroot.
  assert (Habs : isAbsolute (rooted segs ++ slash :: file) = true)
    by (rewrite Hroot; reflexivity).
  assert (Htrail : trailingSeparator (rooted segs ++ slash :: file) = false).
  { change (rooted segs ++ slash :: file) with (rooted segs ++ [slash] ++ file).
    rewrite app_assoc. apply trailingSeparator_segment; assumption. }
  assert (Hnorm : normalizeString (rooted segs ++ slash :: file) false
                  = unsplit (segs ++ [file])).
  { unfold normalizeString. rewrite split_rooted
      by (eapply Forall_impl; [exact Hsegs|]; intros seg Hseg; apply Hseg).
    rewrite (split_segment file Hf4). cbn [normalizeSegments jseqb orb].
    rewrite <- (app_nil_r (segs ++ [file])) at 1.
    rewrite normalizeSegments_clean.
    - cbn [normalizeSegments]. rewrite app_nil_r, rev_involutive. reflexivity.
    - apply Forall_app. split; [assumption|].
      constructor; [repeat split; assumption|constructor]. }
  assert (Hr : slash :: unsplit (segs ++ [file]) = rooted (segs ++ [file]))
    by (apply unsplit_rooted; destruct segs; discriminate).
  assert (Hp : unsplit (segs ++ [file]) ≠ []).
  { destruct segs as [|s [|s' segs]]; [congruence| |];
      inversion Hsegs as [|? ? (Hs & _) _]; subst; cbn;
      destruct s; (congruence || discriminate). }
  unfold normalize.
  remember (rooted segs ++ slash :: file) as p eqn:Ep in *.
  destruct p as [|c p]; [discriminate Habs|].
  rewrite Habs, Htrail. cbn [negb]. rewrite Hnorm.
  destruct (unsplit (segs ++ [file])); [congruence|exact Hr].
Qed.

End PosixJoin.

(** X14.  On darwin the candidates are the entries of "/Applications", each
    as "/Applications/" followed by its name, in the order of the
    listing; they are absolute paths in normal form.  When the directory
    cannot be listed there is no candidate and discovery returns the
    empty mapping. *)
Theorem darwin_candidates cwd basename fs homedir plist_parse v4 fuel :
  (∀ files,
     fs_readdir fs (js "/Applications") = Some files →
     Forall Posix.clean_segment files →
     getPossibleAppPaths (js "darwin") (posix cwd basename) fs homedir
     = map (λ file, js "/Applications/" ++ file) files ∧
     Forall (λ p, ∃ file, p = Posix.rooted [js "Applications"; file] ∧
                          Posix.clean_segment file)
       (getPossibleAppPaths (js "darwin") (posix cwd basename) fs homedir)) ∧
  (fs_readdir fs (js "/Applications") = None →
   getPossibleAppPaths (js "darwin") (posix cwd basename) fs homedir = [] ∧
   getElectronApps (js "darwin") (posix cwd basename) fs homedir plist_parse v4 fuel
   = Returns ∅).
Proof.
  assert (Hpaths : getPossibleAppPaths (js "darwin") (posix cwd basename) fs homedir
                   = readdirAbsolute (posix cwd basename) fs (js "/Applications"))
    by reflexivity.
  split.
  - intros files Hdir Hclean.
    assert (Heq : getPossibleAppPaths (js "darwin") (posix cwd basename) fs homedir
                  = map (λ file, js "/Applications/" ++ file) files).
    { rewrite Hpaths. unfold readdirAbsolute. rewrite Hdir. cbn [path_join posix].
      apply map_ext_in. intros file Hin.
      rewrite Forall_forall in Hclean. apply list_elem_of_In in Hin.
      change (js "/Applications") with (Posix.rooted [js "Applications"]).
      rewrite join_in_directory;
        [|discriminate|constructor; [|constructor]|apply Hclean; assumption].
      - cbn. rewrite app_nil_r. reflexivity.
      - apply clean_segmentb_correct. reflexivity. }
    split; [exact Heq|]. rewrite Heq. apply Forall_map.
    eapply Forall_impl; [exact Hclean|]. intros file Hfile. cbn.
    exists file. split; [|assumption]. cbn. rewrite app_nil_r. reflexivity.
  - intros Hdir.
    assert (Hnil : getPossibleAppPaths (js "darwin") (posix cwd basename) fs homedir = []).
    { rewrite Hpaths. unfold readdirAbsolute. rewrite Hdir. reflexivity. }
    split; [exact Hnil|]. unfold getElectronApps. rewrite Hnil. reflexivity.
Qed.

Lemma darwin_candidates_witness :
  getPossibleAppPaths (js "darwin") (posix (js "/") no_basename) applications_fs
    (js "/Users/u")
  = [js "/Applications/Notes.app"; js "/Applications/Acme.app";
     js "/Applications/Other.app"] ∧
  getElectronApps (js "darwin") (posix (js "/") no_basename) program_files_fs
    (js "/Users/u") acme_plist (λ _, js "uuid-0") 0 = Returns ∅.
Proof.
  split.
  - refine (proj1 (proj1 (darwin_candidates (js "/") no_basename applications_fs
                            (js "/Users/u") acme_plist (λ _, js "uuid-0") 0)
                     [js "Notes.app"; js "Acme.app"; js "Other.app"] _ _)).
    + vm_compute. reflexivity.
    + repeat (constructor; [apply clean_segmentb_correct; reflexivity|]).
      constructor.
  - refine (proj2 (proj2 (darwin_candidates (js "/") no_basename program_files_fs
                            (js "/Users/u") acme_plist (λ _, js "uuid-0") 0) _)).
    vm_compute. reflexivity.
Defined.

(** ** What the extractor can return *)

Lemma selectIcon_member (icons : list IconEntry) (e : IconEntry) :
  selectIcon icons = Returns e → e ∈ icons.
Proof.
  unfold selectIcon. destruct (sort bySizeDesc icons) as [|h t] eqn:E; [discriminate|].
  intros [= <-]. rewrite <- (sort_perm bySizeDesc icons), E. left.
Qed.

(** X2.  When the extractor returns, the string is either empty or the PNG
    data URI of the payload of an entry it parsed, and in that case the
    bytes 1 to 3 of the payload are those of "PNG" and the base64 part
    decodes to the payload. *)
Theorem result_is_empty_or_png_uri fuel fs file uri :
  readIcnsAsImageUri fuel fs file = Returns uri →
  ∃ icons e,
    parseIcons fuel fs file = Returns icons ∧ e ∈ icons ∧
    (uri = emptyString ∨
     uri = js "data:image/png;base64," ++ toBase64 (icon_data e) ∧
     at_ (icon_data e) 1 = Some 80 ∧ at_ (icon_data e) 2 = Some 78 ∧
     at_ (icon_data e) 3 = Some 71 ∧
     base64_decode (toBase64 (icon_data e)) = Some (icon_data e)).
Proof.
  unfold readIcnsAsImageUri.
  destruct (parseIcons fuel fs file) as [icons| |]; try discriminate.
  cbn [mbind outcome_mbind outcome_bind].
  destruct (selectIcon icons) as [e| |] eqn:Hsel; try discriminate.
  cbn [mbind outcome_mbind outcome_bind]. intros [= <-].
  exists icons, e. split; [reflexivity|]. split; [apply selectIcon_member; assumption|].
  unfold imageUri. destruct (jseqb _ _) eqn:E; [right|left; reflexivity].
  destruct (png_test_bytes _ E) as (H1 & H2 & H3).
  repeat split; try assumption. apply base64_roundtrip.
Qed.

Lemma result_is_empty_or_png_uri_witness :
  ∃ icons e,
    parseIcons 3 (single_file icon_file icns_tie) icon_file = Returns icons ∧
    e ∈ icons ∧
    (js "data:image/png;base64,AlBORw==" = emptyString ∨
     js "data:image/png;base64,AlBORw=="
     = js "data:image/png;base64," ++ toBase64 (icon_data e) ∧
     at_ (icon_data e) 1 = Some 80 ∧ at_ (icon_data e) 2 = Some 78 ∧
     at_ (icon_data e) 3 = Some 71 ∧
     base64_decode (toBase64 (icon_data e)) = Some (icon_data e)).
Proof.
  apply (result_is_empty_or_png_uri 3 (single_file icon_file icns_tie) icon_file).
  vm_compute. reflexivity.
Defined.

(** ** Platform B, the other way round *)

Section PosixResolve.
Import Posix.

Lemma clean_not_absolute (seg : jsstring) : clean_segment seg → isAbsolute seg = false.
Proof.
  intros (H1 & _ & _ & H4). destruct seg as [|c seg]; [reflexivity|].
  cbn. destruct (Z.eqb_spec c slash) as [->|]; [|reflexivity].
  exfalso. apply H4. left.
Qed.

(** [path.resolve] of a clean absolute path, "Contents/MacOS" and a
    clean name. *)
Lemma resolve_executable cwd (segs : list jsstring) (exe : jsstring) :
  segs ≠ [] → Forall clean_segment segs → clean_segment exe →
  resolve cwd [rooted segs; js "Contents/MacOS"; exe]
  = rooted segs ++ js "/Contents/MacOS/" ++ exe.
Proof.
  intros Hne Hclean Hexe. unfold resolve. cbn [rev app].
  pose proof (clean_not_absolute exe Hexe) as Hrel.
  destruct Hexe as (He1 & He2 & He3 & He4).
  match goal with
  | |- context [resolveLoop ?c ?args ?acc] =>
      assert (Hloop : resolveLoop c args acc
                      = (rooted segs ++ slash :: js "Contents/MacOS"
                           ++ slash :: exe ++ [slash], true))
  end.
  { destruct exe as [|c exe]; [congruence|].
    cbn [resolveLoop]. rewrite Hrel.
    destruct segs; [congruence|]. reflexivity. }
  rewrite Hloop. cbn [negb]. unfold normalizeString.
  rewrite split_rooted
    by (eapply Forall_impl; [exact Hclean|]; intros seg Hseg; apply Hseg).
  assert (Hsplit : split (js "Contents/MacOS" ++ slash :: exe ++ [slash])
                   = [js "Contents"; js "MacOS"; exe; []]).
  { change (js "Contents/MacOS" ++ slash :: exe ++ [slash])
      with (js "Contents" ++ slash :: js "MacOS" ++ slash :: exe ++ [slash]).
    rewrite (split_app_segment (js "Contents"))
      by exact (proj2 (proj2 (proj2 (clean_segmentb_correct (js "Contents") eq_refl)))).
    cbn [split]. rewrite Z.eqb_refl.
    rewrite (split_app_segment (js "MacOS"))
      by exact (proj2 (proj2 (proj2 (clean_segmentb_correct (js "MacOS") eq_refl)))).
    cbn [split]. rewrite Z.eqb_refl.
    rewrite (split_app_segment exe) by assumption.
    cbn. rewrite app_nil_r. reflexivity. }
  rewrite Hsplit. cbn [normalizeSegments jseqb orb].
  replace (segs ++ [js "Contents"; js "MacOS"; exe; []])
    with ((segs ++ [js "Contents"; js "MacOS"; exe]) ++ [[]])
    by (rewrite <- app_assoc; reflexivity).
  rewrite normalizeSegments_clean.
  - cbn [normalizeSegments jseqb orb]. rewrite app_nil_r, rev_involutive.
    rewrite unsplit_rooted by (destruct segs; discriminate).
    rewrite rooted_app. cbn. rewrite app_nil_r. reflexivity.
  - apply Forall_app. split; [assumption|].
    repeat (constructor; [apply clean_segmentb_correct; reflexivity|]).
    constructor; [repeat split; assumption|constructor].
Qed.

End PosixResolve.

(** X13.  A descriptor returned on darwin comes from a bundle with the
    framework marker; its id, name, executable and icon file are the four
    values of the parsed property list, its icon is the result of the
    icon extractor, its path is the one given; for an absolute bundle
    path in normal form and an executable name that is a plain file name,
    the executable lies in the bundle, under "Contents/MacOS". *)
Theorem darwin_descriptor_origin cwd basename fs plist_parse fuel uuid appPath d :
  getAppInfo (js "darwin") (posix cwd basename) fs plist_parse fuel uuid appPath
  = Returns (Some d) →
  ∃ content info,
    fs_existsSync fs
      (Posix.join [appPath; js "Contents/Frameworks/Electron Framework.framework"])
    = true ∧
    fs_readFile fs (Posix.join [appPath; js "Contents/Info.plist"]) = Some content ∧
    plist_parse (toString content) = Returns info ∧
    readIcnsAsImageUri fuel fs
      (Posix.join [appPath; js "Contents"; js "Resources"; CFBundleIconFile info])
    = Returns (App.icon d) ∧
    App.id d = CFBundleIdentifier info ∧
    App.name d = CFBundleDisplayName info ∧
    App.appPath d = appPath ∧
    App.exePath d
    = Posix.resolve cwd [appPath; js "Contents/MacOS"; CFBundleExecutable info] ∧
    (∀ segs, segs ≠ [] → Forall Posix.clean_segment segs →
       appPath = Posix.rooted segs →
       Posix.clean_segment (CFBundleExecutable info) →
       App.exePath d = appPath ++ js "/Contents/MacOS/" ++ CFBundleExecutable info).
Proof.
  rewrite getAppInfo_darwin. unfold getAppInfoDarwin, readFile.
  cbn [path_join path_resolve posix].
  destruct (fs_existsSync fs _) eqn:Hmark; cbn [negb]; [|discriminate].
  destruct (fs_readFile fs _) as [content|] eqn:Hfile; [|discriminate].
  cbn [mbind outcome_mbind outcome_bind].
  destruct (plist_parse _) as [info| |] eqn:Hparse; try discriminate.
  cbn [mbind outcome_mbind outcome_bind].
  destruct (readIcnsAsImageUri _ _ _) as [uri| |] eqn:Huri; try discriminate.
  cbn [mbind outcome_mbind outcome_bind]. intros [= <-].
  exists content, info. cbn [App.id App.name App.icon App.appPath App.exePath].
  repeat split; try assumption.
  intros segs Hne Hclean -> Hexe. apply resolve_executable; assumption.
Qed.

Lemma darwin_descriptor_origin_witness :
  ∃ content info,
    fs_existsSync (acme_fs true)
      (Posix.join [acme_bundle; js "Contents/Frameworks/Electron Framework.framework"])
    = true ∧
    fs_readFile (acme_fs true) (Posix.join [acme_bundle; js "Contents/Info.plist"])
    = Some content ∧
    acme_plist (toString content) = Returns info ∧
    readIcnsAsImageUri 1 (acme_fs true)
      (Posix.join [acme_bundle; js "Contents"; js "Resources"; CFBundleIconFile info])
    = Returns (js "data:image/png;base64,iVBORw0KGgoBAgMEBQYHCAkKCwwNDg8QERITFA==") ∧
    js "com.acme.app" = CFBundleIdentifier info ∧
    js "Acme" = CFBundleDisplayName info ∧
    acme_bundle = acme_bundle ∧
    js "/Applications/Acme.app/Contents/MacOS/Acme"
    = Posix.resolve (js "/") [acme_bundle; js "Contents/MacOS"; CFBundleExecutable info] ∧
    (∀ segs, segs ≠ [] → Forall Posix.clean_segment segs →
       acme_bundle = Posix.rooted segs →
       Posix.clean_segment (CFBundleExecutable info) →
       js "/Applications/Acme.app/Contents/MacOS/Acme"
       = acme_bundle ++ js "/Contents/MacOS/" ++ CFBundleExecutable info).
Proof.
  apply (darwin_descriptor_origin (js "/") no_basename (acme_fs true) acme_plist 1
           (js "uuid-0") acme_bundle
           {| App.id := js "com.acme.app"; App.name := js "Acme";
              App.icon := js "data:image/png;base64,iVBORw0KGgoBAgMEBQYHCAkKCwwNDg8QERITFA==";
              App.appPath := acme_bundle;
              App.exePath := js "/Applications/Acme.app/Contents/MacOS/Acme" |}).
  vm_compute. reflexivity.
Defined.

(** ** What discovery collects *)

Lemma collectInfos_origin platform path fs plist_parse v4 fuel :
  ∀ appPaths infos out,
    collectInfos platform path fs plist_parse v4 fuel appPaths infos = Returns out →
    ∀ d, d ∈ out →
      d ∈ infos ∨
      ∃ p uuid, p ∈ appPaths ∧
        getAppInfo platform path fs plist_parse fuel uuid p = Returns (Some d).
Proof.
  induction appPaths as [|p appPaths IH]; intros infos out Hrun d Hd.
  - injection Hrun as <-. left. assumption.
  - cbn [collectInfos] in Hrun.
    destruct (getAppInfo platform path fs plist_parse fuel (v4 (length infos)) p)
      as [[info|]| |] eqn:E; try discriminate;
      cbn [mbind outcome_mbind outcome_bind] in Hrun;
      destruct (IH _ _ Hrun d Hd) as [Hin|(q & uuid & Hq & Hinfo)].
    + apply elem_of_app in Hin as [Hin|Hin]; [left; assumption|].
      apply list_elem_of_singleton in Hin as ->.
      right. exists p, (v4 (length infos)). split; [left|assumption].
    + right. exists q, uuid. split; [right; assumption|assumption].
    + left. assumption.
    + right. exists q, uuid. split; [right; assumption|assumption].
Qed.

(** X16.  Every descriptor in the mapping of [getElectronApps] is what
    [getAppInfo] returned for one of the candidate paths: discovery adds
    nothing of its own. *)
Theorem discovered_apps_come_from_candidates
    platform path fs homedir plist_parse v4 fuel m k d :
  getElectronApps platform path fs homedir plist_parse v4 fuel = Returns m →
  m !! k = Some d →
  App.id d = k ∧
  ∃ p uuid,
    p ∈ getPossibleAppPaths platform path fs homedir ∧
    getAppInfo platform path fs plist_parse fuel uuid p = Returns (Some d).
Proof.
  intros Hrun Hk.
  destruct (getElectronApps_collected _ _ _ _ _ _ _ _ Hrun) as (infos & Hc & ->).
  rewrite byId_lookup in Hk.
  destruct (with_id_member k infos d Hk) as [Hid Hin]. split; [assumption|].
  destruct (collectInfos_origin _ _ _ _ _ _ _ _ _ Hc d Hin) as [H|H];
    [inversion H|exact H].
Qed.

Lemma discovered_apps_come_from_candidates_witness :
  App.id (acme_exe_info (js "uuid-0") "c:/Program Files/Beta" "Beta.exe")
  = js "uuid-0" ∧
  ∃ p uuid,
    p ∈ getPossibleAppPaths (js "win32") test_path program_files_fs (js "c:/Users/u") ∧
    getAppInfo (js "win32") test_path program_files_fs no_plist 0 uuid p
    = Returns (Some (acme_exe_info (js "uuid-0") "c:/Program Files/Beta" "Beta.exe")).
Proof.
  apply (discovered_apps_come_from_candidates (js "win32") test_path program_files_fs
           (js "c:/Users/u") no_plist (λ _, js "uuid-0") 0
           (<[js "uuid-0" := acme_exe_info (js "uuid-0") "c:/Program Files/Beta" "Beta.exe"]>
              (∅ : gmap jsstring AppInfo))).
  - vm_compute. reflexivity.
  - apply lookup_insert_eq.
Defined.

Lemma getAppInfoWin32_id path fs uuid appPath d :
  getAppInfoWin32 path fs uuid appPath = Returns (Some d) → App.id d = uuid.
Proof.
  unfold getAppInfoWin32. destruct (fs_readdir fs appPath) as [files|]; [|discriminate].
  destruct (negb _); [discriminate|].
  destruct (List.filter isExeFile files) as [|[|c f] t]; try discriminate.
  intros [= <-]. reflexivity.
Qed.

Lemma collectInfos_win32_ids path fs plist_parse v4 fuel :
  ∀ appPaths infos out,
    (∀ n d, infos !! n = Some d → App.id d = v4 n) →
    collectInfos (js "win32") path fs plist_parse v4 fuel appPaths infos = Returns out →
    ∀ n d, out !! n = Some d → App.id d = v4 n.
Proof.
  induction appPaths as [|p appPaths IH]; intros infos out Hinfos Hrun.
  - injection Hrun as <-. assumption.
  - cbn [collectInfos] in Hrun.
    destruct (getAppInfo (js "win32") path fs plist_parse fuel (v4 (length infos)) p)
      as [[info|]| |] eqn:E; try discriminate;
      cbn [mbind outcome_mbind outcome_bind] in Hrun;
      refine (IH _ _ _ Hrun); try assumption.
    intros n d Hn.
    pose proof (getAppInfoWin32_id _ _ _ _ _ E) as Hd.
    destruct (Nat.lt_ge_cases n (length infos)) as [Hlt|Hge].
    + rewrite lookup_app_l in Hn by assumption. apply Hinfos. assumption.
    + rewrite lookup_app_r in Hn by assumption.
      destruct (n - length infos)%nat as [|j] eqn:Ej; [|destruct j; discriminate Hn].
      injection Hn as <-. rewrite Hd. f_equal. lia.
Qed.

Lemma with_id_single (v4 : nat → jsstring) (infos : list AppInfo) :
  (∀ i j, v4 i = v4 j → i = j) →
  (∀ n d, infos !! n = Some d → App.id d = v4 n) →
  ∀ n d, infos !! n = Some d → with_id (v4 n) infos = [d].
Proof.
  intros Hinj. induction infos as [|x infos IH] using rev_ind; intros Hids n d Hn;
    [discriminate|].
  assert (Hfront : ∀ j e, infos !! j = Some e → App.id e = v4 j).
  { intros j e Hj. apply Hids. rewrite lookup_app_l; [assumption|].
    apply lookup_lt_Some in Hj. assumption. }
  assert (Hx : App.id x = v4 (length infos)).
  { apply Hids. rewrite lookup_app_r by lia. rewrite Nat.sub_diag. reflexivity. }
  unfold with_id. rewrite List.filter_app. fold (with_id (v4 n) infos). cbn [List.filter].
  destruct (Nat.lt_ge_cases n (length infos)) as [Hlt|Hge].
  - rewrite lookup_app_l in Hn by assumption.
    rewrite (IH Hfront n d Hn).
    destruct (bool_decide_reflect (App.id x = v4 n)) as [Hk|Hk]; [|reflexivity].
    rewrite Hx in Hk. apply Hinj in Hk. lia.
  - rewrite lookup_app_r in Hn by assumption.
    destruct (n - length infos)%nat as [|j] eqn:Ej; [|destruct j; discriminate Hn].
    injection Hn as <-. assert (n = length infos) as -> by lia.
    rewrite bool_decide_eq_true_2 by assumption.
    unfold with_id. rewrite filter_none; [reflexivity|].
    apply List.Forall_forall. intros e He.
    apply (proj2 (list_elem_of_In _ _)) in He.
    apply (proj1 (list_elem_of_lookup _ _)) in He as (j & Hj).
    apply bool_decide_eq_false_2. rewrite (Hfront j e Hj).
    intros Heq. apply Hinj in Heq. apply lookup_lt_Some in Hj. lia.
Qed.

(** X17.  On win32 the descriptor number [n] of a scan carries the [n]-th
    result of [v4()] as its id; when [v4()] never repeats, no descriptor
    replaces another and each one is in the mapping under its id. *)
Theorem win32_fresh_ids_keep_every_app path fs homedir plist_parse v4 fuel m :
  getElectronApps (js "win32") path fs homedir plist_parse v4 fuel = Returns m →
  ∃ infos,
    collectInfos (js "win32") path fs plist_parse v4 fuel
      (getPossibleAppPaths (js "win32") path fs homedir) [] = Returns infos ∧
    (∀ n d, infos !! n = Some d → App.id d = v4 n) ∧
    ((∀ i j, v4 i = v4 j → i = j) →
     ∀ n d, infos !! n = Some d → m !! v4 n = Some d).
Proof.
  intros Hrun.
  destruct (getElectronApps_collected _ _ _ _ _ _ _ _ Hrun) as (infos & Hc & ->).
  exists infos. split; [assumption|].
  assert (Hids : ∀ n d, infos !! n = Some d → App.id d = v4 n).
  { refine (collectInfos_win32_ids _ _ _ _ _ _ [] infos _ Hc).
    intros n d H. discriminate H. }
  split; [assumption|].
  intros Hinj n d Hn.
  rewrite byId_lookup, (with_id_single v4 infos Hinj Hids n d Hn). reflexivity.
Qed.

Lemma win32_fresh_ids_keep_every_app_witness :
  ∃ infos,
    collectInfos (js "win32") test_path program_files_fs no_plist numbered_uuid 0
      (getPossibleAppPaths (js "win32") test_path program_files_fs (js "c:/Users/u"))
      [] = Returns infos ∧
    (∀ n d, infos !! n = Some d → App.id d = numbered_uuid n) ∧
    ((∀ i j, numbered_uuid i = numbered_uuid j → i = j) →
     ∀ n d, infos !! n = Some d →
       (<[js "uuid-1" := acme_exe_info (js "uuid-1") "c:/Program Files/Beta" "Beta.exe"]>
          (<[js "uuid-0" := acme_exe_info (js "uuid-0") "c:/Program Files/Acme" "Acme.exe"]>
             (∅ : gmap jsstring AppInfo))) !! numbered_uuid n = Some d).
Proof.
  apply (win32_fresh_ids_keep_every_app test_path program_files_fs (js "c:/Users/u")
           no_plist numbered_uuid 0).
  vm_compute. reflexivity.
Defined.
